(** * Youtube-clipper: search route, acquisition route and client pipeline

    A shallow embedding of
    - [src/app/api/collect-videos/route.ts] (the [GET] search handler),
    - the acquisition handler ([POST], which resolves a video id through
      [ytdl]),
    - the page component ([loadFFmpeg], [fetchVideos], [processVideo],
      [processRandomVideo] and the object-URL cleanup effect),
    followed by the properties of the specification that were checked
    against them. *)

From Stdlib Require Import ZArith QArith String Ascii List Lia Permutation.
From stdpp Require Import base option list strings gmap.

Set Warnings "-register-all".

Local Open Scope Z_scope.
Local Open Scope string_scope.

(** ** JavaScript values *)

Module JS.

(** What [JSON.parse] can produce.  Numbers are kept integral; an object
    is the list of its properties, each key occurring once. *)
Inductive json : Type :=
| JNull
| JBool (b : bool)
| JNum (n : Z)
| JStr (s : string)
| JArr (items : list json)
| JObj (fields : list (string * json)).

(** A JavaScript value read from parsed JSON: [None] is [undefined]. *)
Definition value : Type := option json.

(** [!!v] *)
Definition truthy (v : value) : bool :=
  match v with
  | None => false
  | Some JNull => false
  | Some (JBool b) => b
  | Some (JNum n) => negb (Z.eqb n 0)
  | Some (JStr s) => negb (String.eqb s EmptyString)
  | Some (JArr _) => true
  | Some (JObj _) => true
  end.

(** [s || d] on an optional string: the empty string is falsy. *)
Definition str_or (s : option string) (d : string) : string :=
  match s with
  | Some x => if String.eqb x EmptyString then d else x
  | None => d
  end.

Fixpoint assoc (key : string) (fields : list (string * json)) : value :=
  match fields with
  | [] => None
  | (k, v) :: rest => if String.eqb k key then Some v else assoc key rest
  end.

(** Property read [v.key] for a key that no prototype defines.  Reading a
    property of [null] throws ([inl]); primitives and arrays have no such
    own property. *)
Definition get_prop (v : json) (key : string) : string + value :=
  match v with
  | JNull => inl "TypeError: cannot read properties of null"
  | JObj fields => inr (assoc key fields)
  | _ => inr None
  end.

Definition dquote : string := String (ascii_of_nat 34) EmptyString.

Definition digit (d : Z) : string :=
  String (ascii_of_nat (48 + Z.to_nat d)) EmptyString.

Fixpoint digits (fuel : nat) (n : Z) : string :=
  match fuel with
  | O => EmptyString
  | S fuel' => if Z.ltb n 10 then digit n else digits fuel' (n / 10) ++ digit (n mod 10)
  end.

Definition num_to_string (n : Z) : string :=
  if Z.ltb n 0 then "-" ++ digits (S (Z.to_nat (Z.log2 (- n)))) (- n)
  else digits (S (Z.to_nat (Z.log2 n))) n.

Fixpoint join (sep : string) (l : list string) : string :=
  match l with
  | [] => EmptyString
  | [x] => x
  | x :: rest => x ++ sep ++ join sep rest
  end.

(** [String(v)], as a template literal computes it. *)
Fixpoint to_string (v : json) : string :=
  match v with
  | JNull => "null"
  | JBool true => "true"
  | JBool false => "false"
  | JNum n => num_to_string n
  | JStr s => s
  | JArr items =>
      join "," (map (fun x => match x with JNull => EmptyString | _ => to_string x end) items)
  | JObj _ => "[object Object]"
  end.

End JS.

(** ** Acquisition route: [POST /api/process-video] *)

Module Acquire.

(** The one call the handler makes to the upstream source resolver:
    [ytdl(videoUrl, { quality, filter })]. *)
Record YtdlCall : Type := {
  ytdl_url : string;
  ytdl_quality : string;
  ytdl_filter : string
}.

Inductive Body (Stream : Type) : Type :=
| BodyJson (j : JS.json)
| BodyStream (s : Stream).
Arguments BodyJson {Stream} _.
Arguments BodyStream {Stream} _.

Record Response (Stream : Type) : Type := {
  status : Z;
  headers : list (string * string);
  body : Body Stream
}.
Arguments status {Stream} _.
Arguments headers {Stream} _.
Arguments body {Stream} _.

(** [NextResponse.json({ error: msg }, { status })] *)
Definition json_error {Stream : Type} (msg : string) (st : Z) : Response Stream :=
  {| status := st;
     headers := [("content-type", "application/json")];
     body := BodyJson (JS.JObj [("error", JS.JStr msg)]) |}.

Section Handler.

Context {Stream : Type}.

(** The resolver: it either throws ([None]) or hands back a readable
    stream. *)
Variable ytdl : YtdlCall -> option Stream.

(** [POST(request)].  [parsed] is the outcome of [await request.json()]:
    [None] when the body is not JSON and the promise rejects.  The result
    pairs the response with the upstream calls that were made. *)
Definition POST (parsed : option JS.json) : Response Stream * list YtdlCall :=
  match parsed with
  | None => (json_error "Failed to process video" 500, [])
  | Some b =>
      match JS.get_prop b "videoId" with
      | inl _ => (json_error "Failed to process video" 500, [])
      | inr videoId =>
          if negb (JS.truthy videoId) then
            (json_error "Video ID is required" 400, [])
          else
            let videoUrl :=
              "https://www.youtube.com/watch?v=" ++
              match videoId with Some v => JS.to_string v | None => "undefined" end in
            let call := {| ytdl_url := videoUrl;
                           ytdl_quality := "18";
                           ytdl_filter := "audioandvideo" |} in
            match ytdl call with
            | None => (json_error "Failed to process video" 500, [call])
            | Some stream =>
                ({| status := 200;
                    headers := [("Content-Type", "video/mp4");
                                ("Content-Disposition",
                                 "attachment; filename=" ++ JS.dquote ++ "video.mp4" ++ JS.dquote)];
                    body := BodyStream stream |},
                 [call])
            end
      end
  end.

End Handler.

(** The call the handler makes for an identifier [v] that passed the
    guard. *)
Definition resolver_call (v : JS.json) : YtdlCall :=
  {| ytdl_url := "https://www.youtube.com/watch?v=" ++ JS.to_string v;
     ytdl_quality := "18";
     ytdl_filter := "audioandvideo" |}.

End Acquire.

(** ** Search route: [GET /api/collect-videos] *)

Module Search.

(** [YouTubeVideoItem]: every field is optional. *)
Record Medium : Type := {
  url : option string;
  width : option Z;
  height : option Z
}.

Record Thumbnails : Type := { medium : option Medium }.

Record Snippet : Type := {
  title : option string;
  thumbnails : option Thumbnails
}.

Record ItemId : Type := { videoId : option string }.

Record YouTubeVideoItem : Type := {
  id : option ItemId;
  snippet : option Snippet
}.

(** [process.env] *)
Record Env : Type := { YOUTUBE_API_KEY : option string }.

(** The request, by the query pairs of its URL. *)
Record Request : Type := { searchParams : list (string * string) }.

(** [searchParams.get(name)]: the first value under [name], or [null]. *)
Fixpoint searchParams_get (name : string) (pairs : list (string * string)) : option string :=
  match pairs with
  | [] => None
  | (k, v) :: rest => if String.eqb k name then Some v else searchParams_get name rest
  end.

(** One [youtube.search.list(params)] call, with the key the client was
    built with. *)
Record SearchCall : Type := {
  auth : string;
  part : list string;
  q : string;
  type : list string;
  maxResults : Z
}.

(** What the route reads of a thrown error: [error.response.data.error]
    when that chain is truthy (with its [message]), and [error.message]. *)
Record ApiError : Type := {
  response_data_error : option (option string);
  message : option string
}.

Inductive Body : Type :=
| Videos (items : list YouTubeVideoItem)
| Failure (msg : string) (error : option string).

Record Response : Type := { status : Z; body : Body }.

Section Shuffle.

Context {A : Type}.

(** [random k] is the [k]-th value of [Math.random()], in units of
    [2^-53]; the comparator [() => Math.random() - 0.5] is positive
    exactly when that value exceeds one half. *)
Variable random : nat -> Z.

Definition comparator (k : nat) : Z := random k - 2 ^ 52.

(** [Array.prototype.sort] with a comparator that ignores its arguments:
    the language leaves the order to the implementation.  The model is an
    insertion sort that asks the comparator once per step; [k] counts the
    calls made so far. *)
Fixpoint insert_by (x : A) (sorted : list A) (k : nat) : list A * nat :=
  match sorted with
  | [] => ([x], k)
  | y :: rest =>
      if Z.ltb 0 (comparator k) then (x :: y :: rest, S k)
      else let '(r, k') := insert_by x rest (S k) in (y :: r, k')
  end.

Fixpoint sort_by (l : list A) (k : nat) : list A * nat :=
  match l with
  | [] => ([], k)
  | x :: rest => let '(s, k') := sort_by rest k in insert_by x s k'
  end.

(** [[...allVideos].sort(() => Math.random() - 0.5)] *)
Definition shuffle (allVideos : list A) : list A := fst (sort_by allVideos O).

End Shuffle.

(** The parameters of the one provider call: [part], [type] and
    [maxResults] are fixed, [q] is the request's query or, when that is
    absent or empty, 'trending'. *)
Definition search_call (apiKey : string) (request : Request) : SearchCall :=
  {| auth := apiKey;
     part := ["snippet"];
     q := JS.str_or (searchParams_get "q" (searchParams request)) "trending";
     type := ["video"];
     maxResults := 50 |}.

(** [response.data.items || []] *)
Definition items_or_empty (items : option (list YouTubeVideoItem)) : list YouTubeVideoItem :=
  match items with Some l => l | None => [] end.

Section Handler.

(** [youtube.search.list]: rejects with an error or resolves with
    [response.data.items], which may be undefined. *)
Variable search_list : SearchCall -> ApiError + option (list YouTubeVideoItem).
Variable random : nat -> Z.

Definition error_message (e : ApiError) : string :=
  let errorMessage := "Failed to fetch videos from YouTube." in
  match response_data_error e with
  | Some m => JS.str_or m errorMessage
  | None =>
      match message e with
      | Some m => if String.eqb m EmptyString then errorMessage else m
      | None => errorMessage
      end
  end.

(** [GET(request)]: the response and the provider calls that were made. *)
Definition GET (env : Env) (request : Request) : Response * list SearchCall :=
  match YOUTUBE_API_KEY env with
  | None =>
      ({| status := 500;
          body := Failure "YouTube API Key is not configured on the server." None |}, [])
  | Some apiKey =>
      if String.eqb apiKey EmptyString then
        ({| status := 500;
            body := Failure "YouTube API Key is not configured on the server." None |}, [])
      else
        let params := search_call apiKey request in
        match search_list params with
        | inr items =>
            let allVideos := items_or_empty items in
            let shuffled := shuffle random allVideos in
            let videos := take 10 shuffled in
            ({| status := 200; body := Videos videos |}, [params])
        | inl e =>
            ({| status := 500;
                body := Failure "Error fetching videos from YouTube API."
                                (Some (error_message e)) |}, [params])
        end
  end.

End Handler.

End Search.

(** ** The encoding engine, as the page sees it *)

Module Engine.

(** An awaited promise: fulfilled with a value, or rejected (the [await]
    throws). *)
Inductive Outcome (A : Type) : Type :=
| Fulfilled (a : A)
| Rejected (reason : string).
Arguments Fulfilled {A} _.
Arguments Rejected {A} _.

Definition is_fulfilled {A : Type} (o : Outcome A) : bool :=
  match o with Fulfilled _ => true | Rejected _ => false end.

(** [ffmpeg.load({ coreURL, wasmURL })] *)
Record LoadConfig : Type := { coreURL : string; wasmURL : string }.

(** The methods of the [FFmpeg] class that the page calls, over the
    engine's own state [St] and the byte buffers [Data] it stores.  Every
    method returns a promise.  [writeFile] resolves with a boolean and
    [readFile] with the file's bytes.  [exec] resolves with a number, the
    exit status of the command: [0] when the command ran, non-zero when it
    failed or timed out. *)
Record API (St Data : Type) : Type := {
  create : St;
  load : LoadConfig -> St -> Outcome bool * St;
  writeFile : string -> Data -> St -> Outcome bool * St;
  exec : list string -> St -> Outcome Z * St;
  readFile : string -> St -> Outcome Data * St
}.
Arguments create {St Data} _.
Arguments load {St Data} _ _ _.
Arguments writeFile {St Data} _ _ _ _.
Arguments exec {St Data} _ _ _.
Arguments readFile {St Data} _ _ _.

End Engine.

(** ** The page component *)

Module Page.

Import Engine.

(** Object URLs are handed out by the browser; they are modelled by their
    serial number. *)
Definition URL : Type := nat.

Record Blob (Data : Type) : Type := { blob_part : Data; blob_type : string }.
Arguments blob_part {Data} _.
Arguments blob_type {Data} _.

(** The component's [useState] cells. *)
Record State : Type := {
  status : option string;
  error : option string;
  videos : list Search.YouTubeVideoItem;
  originalVideoUrl : option URL;
  trimmedVideoUrl : option URL;
  searchQuery : string
}.

Record FetchRequest : Type := {
  fetch_url : string;
  fetch_method : string;
  fetch_headers : list (string * string);
  fetch_body : JS.json   (* the value given to [JSON.stringify] *)
}.

Record FetchResponse (Data : Type) : Type := {
  ok : bool;
  json : Outcome JS.json;
  arrayBuffer : Outcome Data
}.
Arguments ok {Data} _.
Arguments json {Data} _.
Arguments arrayBuffer {Data} _.

(** What the component does to the outside, in order. *)
Inductive Event (Data : Type) : Type :=
| EvFetch (req : FetchRequest) (ok : option bool)
| EvLoad (fulfilled : bool)
| EvWriteFile (path : string) (data : Data) (fulfilled : bool)
| EvExec (args : list string) (exit_status : option Z)
| EvReadFile (path : string) (fulfilled : bool)
| EvCreateObjectURL (u : URL)
| EvRevokeObjectURL (u : URL).
Arguments EvFetch {Data} _ _.
Arguments EvLoad {Data} _.
Arguments EvWriteFile {Data} _ _ _.
Arguments EvExec {Data} _ _.
Arguments EvReadFile {Data} _ _.
Arguments EvCreateObjectURL {Data} _.
Arguments EvRevokeObjectURL {Data} _.

(** Everything a call of the component's functions can read or change:
    - [ui]: the state cells, with the updates queued so far;
    - [rendered]: the state of the latest render, which is what the
      closures of that render ([processVideo], the effect cleanup) see;
    - [ffmpegRef]: [ffmpegRef.current], [None] for [null];
    - [objectURLs], [nextURL]: the live object URLs and the next serial;
    - [log]: the events so far, oldest first. *)
Record World (St Data : Type) : Type := {
  ui : State;
  rendered : State;
  ffmpegRef : option St;
  objectURLs : gmap nat (Blob Data);
  nextURL : nat;
  log : list (Event Data)
}.
Arguments ui {St Data} _.
Arguments rendered {St Data} _.
Arguments ffmpegRef {St Data} _.
Arguments objectURLs {St Data} _.
Arguments nextURL {St Data} _.
Arguments log {St Data} _.

(** The two command lists of [processVideo]. *)
Definition trimArgs : list string :=
  ["-i"; "input.mp4";
   "-t"; "30";
   "-c"; "copy";
   "trimmed.mp4"].

Definition encodeArgs : list string :=
  ["-i"; "trimmed.mp4";
   "-vf"; "fps=30,crop=ih*9/16:ih,scale=720:1280:force_original_aspect_ratio=decrease,pad=720:1280:(ow-iw)/2:(oh-ih)/2";
   "-c:v"; "libx264";
   "-preset"; "medium";
   "-crf"; "22";
   "-c:a"; "aac";
   "-b:a"; "192k";
   "-movflags"; "+faststart";
   "output.mp4"].

Definition baseURL : string := "https://unpkg.com/@ffmpeg/core@0.12.10/dist/umd".

(** [video.id?.videoId] *)
Definition videoId_of (video : Search.YouTubeVideoItem) : option string :=
  match Search.id video with
  | Some i => Search.videoId i
  | None => None
  end.

Section Component.

Context {St Data : Type}.

Variable engine : API St Data.
Variable fetch : FetchRequest -> Outcome (FetchResponse Data).
Variable toBlobURL : string -> string -> Outcome string.

Abbreviation World := (World St Data).

(** *** A state-and-exception monad for [async] function bodies *)

Definition M (A : Type) : Type := World -> Outcome A * World.

Definition ret {A : Type} (a : A) : M A := fun w => (Fulfilled a, w).

Definition bind {A B : Type} (c : M A) (k : A -> M B) : M B :=
  fun w =>
    match c w with
    | (Fulfilled a, w') => k a w'
    | (Rejected e, w') => (Rejected e, w')
    end.

Definition throw {A : Type} (e : string) : M A := fun w => (Rejected e, w).

(** [try { body } catch (error) { handler }] *)
Definition try_catch (body : M unit) (handler : string -> M unit) : M unit :=
  fun w =>
    match body w with
    | (Fulfilled tt, w') => (Fulfilled tt, w')
    | (Rejected e, w') => handler e w'
    end.

Notation "x <- c1 ;; c2" := (bind c1 (fun x => c2))
  (at level 100, c1 at next level, right associativity).
Notation "c1 ;; c2" := (bind c1 (fun _ => c2))
  (at level 100, right associativity).

Definition modify (f : World -> World) : M unit := fun w => (Fulfilled tt, f w).

Definition with_ui (f : State -> State) (w : World) : World :=
  {| ui := f (ui w); rendered := rendered w; ffmpegRef := ffmpegRef w;
     objectURLs := objectURLs w; nextURL := nextURL w; log := log w |}.

Definition with_log (e : Event Data) (w : World) : World :=
  {| ui := ui w; rendered := rendered w; ffmpegRef := ffmpegRef w;
     objectURLs := objectURLs w; nextURL := nextURL w; log := (log w ++ [e])%list |}.

Definition with_ref (r : option St) (w : World) : World :=
  {| ui := ui w; rendered := rendered w; ffmpegRef := r;
     objectURLs := objectURLs w; nextURL := nextURL w; log := log w |}.

Definition setStatus (v : option string) : M unit :=
  modify (with_ui (fun s =>
    {| status := v; error := error s; videos := videos s;
       originalVideoUrl := originalVideoUrl s; trimmedVideoUrl := trimmedVideoUrl s;
       searchQuery := searchQuery s |})).

Definition setError (v : option string) : M unit :=
  modify (with_ui (fun s =>
    {| status := status s; error := v; videos := videos s;
       originalVideoUrl := originalVideoUrl s; trimmedVideoUrl := trimmedVideoUrl s;
       searchQuery := searchQuery s |})).

Definition setOriginalVideoUrl (v : option URL) : M unit :=
  modify (with_ui (fun s =>
    {| status := status s; error := error s; videos := videos s;
       originalVideoUrl := v; trimmedVideoUrl := trimmedVideoUrl s;
       searchQuery := searchQuery s |})).

Definition setTrimmedVideoUrl (v : option URL) : M unit :=
  modify (with_ui (fun s =>
    {| status := status s; error := error s; videos := videos s;
       originalVideoUrl := originalVideoUrl s; trimmedVideoUrl := v;
       searchQuery := searchQuery s |})).

(** [URL.revokeObjectURL(u)] *)
Definition revoke (u : URL) (w : World) : World :=
  {| ui := ui w; rendered := rendered w; ffmpegRef := ffmpegRef w;
     objectURLs := delete u (objectURLs w); nextURL := nextURL w;
     log := (log w ++ [EvRevokeObjectURL u])%list |}.

Definition revokeObjectURL (u : URL) : M unit := modify (revoke u).

(** [if (url) URL.revokeObjectURL(url)] *)
Definition revoke_if_set (url : option URL) (w : World) : World :=
  match url with Some u => revoke u w | None => w end.

(** [URL.createObjectURL(blob)] *)
Definition createObjectURL (b : Blob Data) : M URL :=
  fun w =>
    let u := nextURL w in
    (Fulfilled u,
     {| ui := ui w; rendered := rendered w; ffmpegRef := ffmpegRef w;
        objectURLs := <[u := b]> (objectURLs w); nextURL := S u;
        log := (log w ++ [EvCreateObjectURL u])%list |}).

(** The cleanup returned by the effect on
    [[originalVideoUrl, trimmedVideoUrl]], closed over the state [s] of the
    render that installed it. *)
Definition cleanup (s : State) (w : World) : World :=
  revoke_if_set (trimmedVideoUrl s) (revoke_if_set (originalVideoUrl s) w).

Definition deps_changed (old new : State) : bool :=
  negb (bool_decide (originalVideoUrl old = originalVideoUrl new
                     /\ trimmedVideoUrl old = trimmedVideoUrl new)).

(** A render with the queued updates: when a dependency of the effect
    changed, the cleanup of the previous render runs first. *)
Definition render (w : World) : World :=
  let w' := if deps_changed (rendered w) (ui w) then cleanup (rendered w) w else w in
  {| ui := ui w'; rendered := ui w'; ffmpegRef := ffmpegRef w';
     objectURLs := objectURLs w'; nextURL := nextURL w'; log := log w' |}.

(** [await c]: the call is made, and while its promise is pending the
    component re-renders with the updates queued before it. *)
Definition await {A : Type} (c : M A) : M A :=
  fun w => let '(r, w') := c w in (r, render w').

Definition lift {A : Type} (o : Outcome A) : M A := fun w => (o, w).

(** A method call on [ffmpegRef.current], logged with [ev]; on [null] the
    call throws. *)
Definition on_engine {A : Type} (op : St -> Outcome A * St)
    (ev : Outcome A -> Event Data) : M A :=
  fun w =>
    match ffmpegRef w with
    | None => (Rejected "TypeError: ffmpegRef.current is null", w)
    | Some st =>
        let '(r, st') := op st in
        (r, with_log (ev r) (with_ref (Some st') w))
    end.

Definition ffmpeg_load (cfg : LoadConfig) : M bool :=
  on_engine (load engine cfg) (fun r => EvLoad (is_fulfilled r)).

Definition ffmpeg_writeFile (path : string) (data : Data) : M bool :=
  on_engine (writeFile engine path data)
            (fun r => EvWriteFile path data (is_fulfilled r)).

Definition ffmpeg_exec (args : list string) : M Z :=
  on_engine (exec engine args)
            (fun r => EvExec args (match r with Fulfilled c => Some c | Rejected _ => None end)).

Definition ffmpeg_readFile (path : string) : M Data :=
  on_engine (readFile engine path) (fun r => EvReadFile path (is_fulfilled r)).

Definition do_fetch (req : FetchRequest) : M (FetchResponse Data) :=
  fun w =>
    let r := fetch req in
    (r, with_log (EvFetch req (match r with
                               | Fulfilled resp => Some (ok resp)
                               | Rejected _ => None
                               end)) w).

(** The [try] block of [loadFFmpeg]: the engine object is stored in
    [ffmpegRef] before its [load] is awaited. *)
Definition load_engine : M unit :=
  setStatus (Some "Loading FFmpeg...") ;;
  setError None ;;
  modify (with_ref (Some (create engine))) ;;
  core <- await (lift (toBlobURL (baseURL ++ "/ffmpeg-core.js") "application/javascript")) ;;
  wasm <- await (lift (toBlobURL (baseURL ++ "/ffmpeg-core.wasm") "application/wasm")) ;;
  await (ffmpeg_load {| coreURL := core; wasmURL := wasm |}) ;;
  setStatus None.

(** [loadFFmpeg()] *)
Definition loadFFmpeg : M unit :=
  try_catch load_engine (fun _ => setError (Some "Failed to load FFmpeg")).

(** The request of [processVideo] to the acquisition route. *)
Definition process_video_request (videoId : string) : FetchRequest :=
  {| fetch_url := "/api/process-video";
     fetch_method := "POST";
     fetch_headers := [("Content-Type", "application/json")];
     fetch_body := JS.JObj [("videoId", JS.JStr videoId)] |}.

(** [throw new Error(error.error || 'Failed to download video')] *)
Definition throw_download_error (err : JS.json) : M unit :=
  match JS.get_prop err "error" with
  | inl e => throw e
  | inr v =>
      throw (match v with
             | Some x => if JS.truthy v then JS.to_string x else "Failed to download video"
             | None => "Failed to download video"
             end)
  end.

(** The body of [processVideo], in the order of the source.  [download]
    is the request to the acquisition route up to [response.arrayBuffer()]. *)
Definition download (videoId : string) : M Data :=
  setStatus (Some "Downloading video...") ;;
  response <- await (do_fetch (process_video_request videoId)) ;;
  (if negb (ok response) then
     err <- await (lift (json response)) ;;
     throw_download_error err
   else ret tt) ;;
  await (lift (arrayBuffer response)).

(** "Show original video immediately" *)
Definition show_original (closure : State) (videoData : Data) : M unit :=
  modify (revoke_if_set (originalVideoUrl closure)) ;;
  originalUrl <- createObjectURL {| blob_part := videoData; blob_type := "video/mp4" |} ;;
  setOriginalVideoUrl (Some originalUrl).

(** Ingest, trim and encode.  The values the three promises resolve with
    are not used. *)
Definition transcode_stages (videoData : Data) : M unit :=
  setStatus (Some "Trimming video...") ;;
  await (ffmpeg_writeFile "input.mp4" videoData) ;;
  await (ffmpeg_exec trimArgs) ;;
  await (ffmpeg_exec encodeArgs) ;;
  ret tt.

(** "Clean up old trimmed video URL and create new one" *)
Definition show_result (closure : State) : M unit :=
  modify (revoke_if_set (trimmedVideoUrl closure)) ;;
  data <- await (ffmpeg_readFile "output.mp4") ;;
  trimmedUrl <- createObjectURL {| blob_part := data; blob_type := "video/mp4" |} ;;
  setTrimmedVideoUrl (Some trimmedUrl) ;;
  setStatus (Some "Ready!").

(** The [try] block. *)
Definition job (closure : State) (videoId : string) : M unit :=
  setStatus (Some "Processing video...") ;;
  setError None ;;
  videoData <- download videoId ;;
  show_original closure videoData ;;
  transcode_stages videoData ;;
  show_result closure.

(** The [catch] block. *)
Definition report_failure (e : string) : M unit :=
  setError (Some "Failed to process video") ;;
  setStatus None.

(** [processVideo(video)].  [originalVideoUrl] and [trimmedVideoUrl] are
    read from the closure, that is from the render the function was created
    in. *)
Definition processVideo (video : Search.YouTubeVideoItem) : M unit :=
  fun w =>
    match ffmpegRef w, videoId_of video with
    | None, _ => (Fulfilled tt, w)
    | Some _, None => (Fulfilled tt, w)
    | Some _, Some videoId =>
        if String.eqb videoId EmptyString then (Fulfilled tt, w)
        else try_catch (job (rendered w) videoId) report_failure w
    end.

(** A whole user action: the call, then the render that follows it. *)
Definition run (c : M unit) (w : World) : World := render (snd (c w)).

End Component.

End Page.

(** ** A reference model of the encoding engine

    The engine is not part of the repository.  This module describes, for
    the options and filters that [processVideo] passes, what the engine
    documents about them: which streams are copied, where a duration limit
    cuts, how the filter chain changes the picture size and the frame rate,
    and when a command is refused.  Media are described by their structure
    (picture size, frame rate, number of frames, codecs, layout), not by
    their bytes. *)

Module FFmpeg.

Import Engine.

(** A container with one video and one audio stream.  The frame rate is
    [rate_num / rate_den] frames per second, frame [i] is shown at
    [i * rate_den / rate_num] seconds, and the duration is
    [frames * rate_den / rate_num] seconds. *)
Record Media : Type := {
  width : Z;
  height : Z;
  rate_num : Z;
  rate_den : Z;
  frames : Z;
  vcodec : string;
  acodec : string;
  abitrate : Z;
  faststart : bool
}.

Definition well_formed (m : Media) : Prop :=
  0 < width m /\ 0 < height m /\ 0 < rate_num m /\ 0 < rate_den m /\ 0 <= frames m.

(** A stored file: bytes the demuxer cannot read, or a container. *)
Inductive File : Type :=
| Junk (raw : string)
| Clip (m : Media).

(** *** Strings *)

Fixpoint split_on (sep : ascii) (s : string) : list string :=
  match s with
  | EmptyString => [EmptyString]
  | String c rest =>
      if Ascii.eqb c sep then EmptyString :: split_on sep rest
      else match split_on sep rest with
           | [] => [String c EmptyString]
           | p :: ps => String c p :: ps
           end
  end.

(** [cut sep s]: the text before and after the first [sep]. *)
Fixpoint cut (sep : ascii) (s : string) : option (string * string) :=
  match s with
  | EmptyString => None
  | String c rest =>
      if Ascii.eqb c sep then Some (EmptyString, rest)
      else match cut sep rest with
           | Some (a, b) => Some (String c a, b)
           | None => None
           end
  end.

Definition is_digit (c : ascii) : bool :=
  let n := nat_of_ascii c in (48 <=? n)%nat && (n <=? 57)%nat.

Definition is_alpha (c : ascii) : bool :=
  let n := nat_of_ascii c in
  ((97 <=? n)%nat && (n <=? 122)%nat) || ((65 <=? n)%nat && (n <=? 90)%nat) || (n =? 95)%nat.

Definition digit_value (c : ascii) : Z := Z.of_nat (nat_of_ascii c - 48).

Fixpoint parse_digits (acc : Z) (s : string) : option Z :=
  match s with
  | EmptyString => Some acc
  | String c rest =>
      if is_digit c then parse_digits (10 * acc + digit_value c) rest else None
  end.

(** A non-empty run of decimal digits. *)
Definition parse_number (s : string) : option Z :=
  match s with
  | EmptyString => None
  | _ => parse_digits 0 s
  end.

(** A bit rate: digits, with an optional [k] or [M] suffix. *)
Fixpoint parse_bitrate_from (acc : Z) (seen : bool) (s : string) : option Z :=
  match s with
  | EmptyString => if seen then Some acc else None
  | String c rest =>
      if is_digit c then parse_bitrate_from (10 * acc + digit_value c) true rest
      else if seen && String.eqb s "k" then Some (acc * 1000)
      else if seen && String.eqb s "M" then Some (acc * 1000000)
      else None
  end.

Definition parse_bitrate (s : string) : option Z := parse_bitrate_from 0 false s.

(** *** Filter expressions *)

Inductive binop : Type := Add | Sub | Mul | Div.

Inductive expr : Type :=
| ENum (n : Z)
| EVar (x : string)
| ENeg (e : expr)
| EBin (op : binop) (a b : expr).

Inductive token : Type :=
| TNum (n : Z)
| TId (x : string)
| TPlus | TMinus | TStar | TSlash | TLParen | TRParen.

Inductive pending : Type :=
| PNone
| PNum (n : Z)
| PId (x : string).

Definition flush (p : pending) : list token :=
  match p with
  | PNone => []
  | PNum n => [TNum n]
  | PId x => [TId x]
  end.

Definition symbol (c : ascii) : option token :=
  match nat_of_ascii c with
  | 43%nat => Some TPlus
  | 45%nat => Some TMinus
  | 42%nat => Some TStar
  | 47%nat => Some TSlash
  | 40%nat => Some TLParen
  | 41%nat => Some TRParen
  | _ => None
  end.

Fixpoint tokenize_from (p : pending) (s : string) : option (list token) :=
  match s with
  | EmptyString => Some (flush p)
  | String c rest =>
      if is_digit c then
        match p with
        | PNone => tokenize_from (PNum (digit_value c)) rest
        | PNum n => tokenize_from (PNum (10 * n + digit_value c)) rest
        | PId x => tokenize_from (PId (x ++ String c EmptyString)) rest
        end
      else if is_alpha c then
        match p with
        | PNone => tokenize_from (PId (String c EmptyString)) rest
        | PNum _ => None
        | PId x => tokenize_from (PId (x ++ String c EmptyString)) rest
        end
      else
        match symbol c, tokenize_from PNone rest with
        | Some t, Some ts => Some (flush p ++ t :: ts)%list
        | _, _ => None
        end
  end.

Definition tokenize (s : string) : option (list token) := tokenize_from PNone s.

(** Sums of products of atoms, left associative, by recursive descent. *)
Fixpoint parse_sum (fuel : nat) (ts : list token) : option (expr * list token) :=
  match fuel with
  | O => None
  | S f =>
      match parse_prod f ts with
      | Some (a, rest) => sum_rest f a rest
      | None => None
      end
  end
with sum_rest (fuel : nat) (a : expr) (ts : list token) : option (expr * list token) :=
  match fuel with
  | O => None
  | S f =>
      match ts with
      | TPlus :: ts' =>
          match parse_prod f ts' with
          | Some (b, rest) => sum_rest f (EBin Add a b) rest
          | None => None
          end
      | TMinus :: ts' =>
          match parse_prod f ts' with
          | Some (b, rest) => sum_rest f (EBin Sub a b) rest
          | None => None
          end
      | _ => Some (a, ts)
      end
  end
with parse_prod (fuel : nat) (ts : list token) : option (expr * list token) :=
  match fuel with
  | O => None
  | S f =>
      match parse_atom f ts with
      | Some (a, rest) => prod_rest f a rest
      | None => None
      end
  end
with prod_rest (fuel : nat) (a : expr) (ts : list token) : option (expr * list token) :=
  match fuel with
  | O => None
  | S f =>
      match ts with
      | TStar :: ts' =>
          match parse_atom f ts' with
          | Some (b, rest) => prod_rest f (EBin Mul a b) rest
          | None => None
          end
      | TSlash :: ts' =>
          match parse_atom f ts' with
          | Some (b, rest) => prod_rest f (EBin Div a b) rest
          | None => None
          end
      | _ => Some (a, ts)
      end
  end
with parse_atom (fuel : nat) (ts : list token) : option (expr * list token) :=
  match fuel with
  | O => None
  | S f =>
      match ts with
      | TNum n :: rest => Some (ENum n, rest)
      | TId x :: rest => Some (EVar x, rest)
      | TMinus :: rest =>
          match parse_atom f rest with
          | Some (e, rest') => Some (ENeg e, rest')
          | None => None
          end
      | TLParen :: rest =>
          match parse_sum f rest with
          | Some (e, TRParen :: rest') => Some (e, rest')
          | _ => None
          end
      | _ => None
      end
  end.

Definition parse_expr (s : string) : option expr :=
  match tokenize s with
  | Some ts =>
      match parse_sum (4 * length ts + 4) ts with
      | Some (e, []) => Some e
      | _ => None
      end
  | None => None
  end.

(** Evaluation is exact; a division by zero has no value. *)
Fixpoint eval (env : string -> option Q) (e : expr) : option Q :=
  match e with
  | ENum n => Some (inject_Z n)
  | EVar x => env x
  | ENeg a => option_map Qopp (eval env a)
  | EBin op a b =>
      match eval env a, eval env b with
      | Some x, Some y =>
          match op with
          | Add => Some (Qplus x y)
          | Sub => Some (Qminus x y)
          | Mul => Some (Qmult x y)
          | Div => if Qeq_bool y (inject_Z 0) then None else Some (Qdiv x y)
          end
      | _, _ => None
      end
  end.

(** Rounding to the nearest integer, halves to the even neighbour. *)
Definition lrint (q : Q) : Z :=
  let n := Qnum q in
  let d := Zpos (Qden q) in
  let f := n / d in
  match Z.compare (2 * (n mod d)) d with
  | Lt => f
  | Gt => f + 1
  | Eq => if Z.even f then f else f + 1
  end.

(** [a * b / c] rounded to nearest, halves away from zero, for
    non-negative operands. *)
Definition rescale (a b c : Z) : Z := (a * b + c / 2) / c.

(** Conversion of a value to [int] by truncation. *)
Definition trunc (q : Q) : Z := Z.quot (Qnum q) (Zpos (Qden q)).

(** Pictures are sampled 4:2:0, so sizes and offsets are brought down to a
    multiple of two. *)
Definition align_down (n : Z) : Z := n - n mod 2.

(** *** Filters *)

Inductive aspect_mode : Type := Disable | Decrease | Increase.

Inductive video_filter : Type :=
| Fps (rate : Z)
| Crop (w h x y : expr)
| Scale (w h : expr) (force_original_aspect_ratio : aspect_mode)
| Pad (w h x y : expr).

(** The offsets of [crop] when none is given: the window is centred. *)
Definition crop_default_x : expr := EBin Div (EBin Sub (EVar "in_w") (EVar "out_w")) (ENum 2).
Definition crop_default_y : expr := EBin Div (EBin Sub (EVar "in_h") (EVar "out_h")) (ENum 2).

Definition parse_aspect_mode (s : string) : option aspect_mode :=
  if String.eqb s "disable" then Some Disable
  else if String.eqb s "decrease" then Some Decrease
  else if String.eqb s "increase" then Some Increase
  else None.

Definition parse_filter (s : string) : option video_filter :=
  match cut "=" s with
  | None => None
  | Some (name, args) =>
      let parts := split_on ":" args in
      if String.eqb name "fps" then
        match parts with
        | [r] => Fps <$> parse_number r
        | _ => None
        end
      else if String.eqb name "crop" then
        match parts with
        | [w; h] =>
            w' ← parse_expr w; h' ← parse_expr h;
            Some (Crop w' h' crop_default_x crop_default_y)
        | [w; h; x; y] =>
            w' ← parse_expr w; h' ← parse_expr h;
            x' ← parse_expr x; y' ← parse_expr y;
            Some (Crop w' h' x' y')
        | _ => None
        end
      else if String.eqb name "scale" then
        match parts with
        | [w; h] =>
            w' ← parse_expr w; h' ← parse_expr h; Some (Scale w' h' Disable)
        | [w; h; o] =>
            w' ← parse_expr w; h' ← parse_expr h;
            '(key, v) ← cut "=" o;
            mode ← parse_aspect_mode v;
            if String.eqb key "force_original_aspect_ratio" then Some (Scale w' h' mode)
            else None
        | _ => None
        end
      else if String.eqb name "pad" then
        match parts with
        | [w; h] =>
            w' ← parse_expr w; h' ← parse_expr h; Some (Pad w' h' (ENum 0) (ENum 0))
        | [w; h; x; y] =>
            w' ← parse_expr w; h' ← parse_expr h;
            x' ← parse_expr x; y' ← parse_expr y;
            Some (Pad w' h' x' y')
        | _ => None
        end
      else None
  end.

Fixpoint parse_all {A B : Type} (f : A -> option B) (l : list A) : option (list B) :=
  match l with
  | [] => Some []
  | a :: rest => b ← f a; bs ← parse_all f rest; Some (b :: bs)
  end.

(** A filter chain: filters separated by commas. *)
Definition parse_chain (s : string) : option (list video_filter) :=
  parse_all parse_filter (split_on "," s).

(** The variables of a size or offset expression: the input size and,
    once it is known, the output size. *)
Definition vars (iw ih : Z) (out : option (Z * Z)) (x : string) : option Q :=
  if String.eqb x "iw" || String.eqb x "in_w" then Some (inject_Z iw)
  else if String.eqb x "ih" || String.eqb x "in_h" then Some (inject_Z ih)
  else match out with
       | Some (ow, oh) =>
           if String.eqb x "ow" || String.eqb x "out_w" then Some (inject_Z ow)
           else if String.eqb x "oh" || String.eqb x "out_h" then Some (inject_Z oh)
           else None
       | None => None
       end.

Definition clamp (lo hi n : Z) : Z := Z.max lo (Z.min hi n).

(** [crop]: the window [(x, y, w, h)] cut out of an [iw] by [ih] picture.
    A window that is empty or larger than the picture is refused. *)
Definition crop_window (w h x y : expr) (iw ih : Z) : option (Z * Z * Z * Z) :=
  wq ← eval (vars iw ih None) w;
  hq ← eval (vars iw ih None) h;
  let cw := align_down (lrint wq) in
  let ch := align_down (lrint hq) in
  xq ← eval (vars iw ih (Some (cw, ch))) x;
  yq ← eval (vars iw ih (Some (cw, ch))) y;
  if (0 <? cw)%Z && (0 <? ch)%Z && (cw <=? iw)%Z && (ch <=? ih)%Z then
    Some (align_down (clamp 0 (iw - cw) (trunc xq)),
          align_down (clamp 0 (ih - ch) (trunc yq)), cw, ch)
  else None.

(** [scale]: the size the picture is resampled to.  With
    [force_original_aspect_ratio=decrease] the requested size is shrunk so
    that the picture keeps its proportions.  Only explicit (positive)
    sizes are modelled. *)
Definition scale_size (w h : expr) (mode : aspect_mode) (iw ih : Z) : option (Z * Z) :=
  wq ← eval (vars iw ih None) w;
  hq ← eval (vars iw ih None) h;
  let w0 := trunc wq in
  let h0 := trunc hq in
  if (0 <? w0)%Z && (0 <? h0)%Z then
    let tmp_w := rescale h0 iw ih in
    let tmp_h := rescale w0 ih iw in
    let '(w1, h1) :=
      match mode with
      | Disable => (w0, h0)
      | Decrease => (Z.min tmp_w w0, Z.min tmp_h h0)
      | Increase => (Z.max tmp_w w0, Z.max tmp_h h0)
      end in
    if (0 <? w1)%Z && (0 <? h1)%Z then Some (w1, h1) else None
  else None.

(** [pad]: the canvas [(w, h)] and the place [(x, y)] of the picture on
    it.  A canvas smaller than the picture is refused; an offset that
    would put the picture outside the canvas is replaced by the centred
    one. *)
Definition pad_canvas (w h x y : expr) (iw ih : Z) : option (Z * Z * Z * Z) :=
  wq ← eval (vars iw ih None) w;
  hq ← eval (vars iw ih None) h;
  let cw := align_down (trunc wq) in
  let ch := align_down (trunc hq) in
  xq ← eval (vars iw ih (Some (cw, ch))) x;
  yq ← eval (vars iw ih (Some (cw, ch))) y;
  if (iw <=? cw)%Z && (ih <=? ch)%Z then
    let x0 := trunc xq in
    let y0 := trunc yq in
    let x1 := if (x0 <? 0)%Z || (cw <? x0 + iw)%Z then (cw - iw) / 2 else x0 in
    let y1 := if (y0 <? 0)%Z || (ch <? y0 + ih)%Z then (ch - ih) / 2 else y0 in
    Some (align_down x1, align_down y1, cw, ch)
  else None.

Definition with_size (w h : Z) (m : Media) : Media :=
  {| width := w; height := h; rate_num := rate_num m; rate_den := rate_den m;
     frames := frames m; vcodec := vcodec m; acodec := acodec m;
     abitrate := abitrate m; faststart := faststart m |}.

Definition with_frames (n : Z) (m : Media) : Media :=
  {| width := width m; height := height m; rate_num := rate_num m; rate_den := rate_den m;
     frames := n; vcodec := vcodec m; acodec := acodec m;
     abitrate := abitrate m; faststart := faststart m |}.

(** [fps]: the same span of time is refilled with frames at the new
    rate. *)
Definition with_rate (r : Z) (m : Media) : Media :=
  {| width := width m; height := height m; rate_num := r; rate_den := 1;
     frames := rescale (frames m * rate_den m) r (rate_num m);
     vcodec := vcodec m; acodec := acodec m;
     abitrate := abitrate m; faststart := faststart m |}.

Definition apply_filter (f : video_filter) (m : Media) : option Media :=
  match f with
  | Fps r => if (0 <? r)%Z then Some (with_rate r m) else None
  | Crop w h x y =>
      '(_, _, cw, ch) ← crop_window w h x y (width m) (height m);
      Some (with_size cw ch m)
  | Scale w h mode =>
      '(sw, sh) ← scale_size w h mode (width m) (height m);
      Some (with_size sw sh m)
  | Pad w h x y =>
      '(_, _, cw, ch) ← pad_canvas w h x y (width m) (height m);
      Some (with_size cw ch m)
  end.

Fixpoint apply_chain (chain : list video_filter) (m : Media) : option Media :=
  match chain with
  | [] => Some m
  | f :: rest => m' ← apply_filter f m; apply_chain rest m'
  end.

(** *** Commands *)

Inductive stream : Type := AllStreams | VideoStream | AudioStream.

(** The options of a command line, in the order they are given. *)
Inductive opt : Type :=
| OOverwrite
| ONoStdin
| OInput (path : string)
| ODuration (seconds : Z)
| OCodec (s : stream) (name : string)
| OFilter (chain : list video_filter)
| OPreset (name : string)
| OCrf (quality : Z)
| OBitrate (s : stream) (bits : Z)
| OMovflags (flags : list string)
| OOutput (path : string).

Definition parse_flag (a : string) : option opt :=
  if String.eqb a "-y" then Some OOverwrite
  else if String.eqb a "-nostdin" then Some ONoStdin
  else None.

Definition takes_value (a : string) : bool :=
  String.eqb a "-i" || String.eqb a "-t" || String.eqb a "-c" || String.eqb a "-c:v"
  || String.eqb a "-c:a" || String.eqb a "-vf" || String.eqb a "-preset"
  || String.eqb a "-crf" || String.eqb a "-b:a" || String.eqb a "-movflags".

Definition parse_valued (a v : string) : option opt :=
  if String.eqb a "-i" then Some (OInput v)
  else if String.eqb a "-t" then ODuration <$> parse_number v
  else if String.eqb a "-c" then Some (OCodec AllStreams v)
  else if String.eqb a "-c:v" then Some (OCodec VideoStream v)
  else if String.eqb a "-c:a" then Some (OCodec AudioStream v)
  else if String.eqb a "-vf" then OFilter <$> parse_chain v
  else if String.eqb a "-preset" then Some (OPreset v)
  else if String.eqb a "-crf" then OCrf <$> parse_number v
  else if String.eqb a "-b:a" then OBitrate AudioStream <$> parse_bitrate v
  else if String.eqb a "-movflags" then
    Some (OMovflags (List.filter (fun f => negb (String.eqb f EmptyString)) (split_on "+" v)))
  else None.

Definition is_option (a : string) : bool :=
  match a with
  | String c _ => Ascii.eqb c "-"
  | EmptyString => false
  end.

(** An argument is a flag, an option followed by its value, or the name of
    the output file; anything else is refused. *)
Fixpoint parse_args (args : list string) : option (list opt) :=
  match args with
  | [] => Some []
  | a :: rest =>
      match parse_flag a with
      | Some o => cons o <$> parse_args rest
      | None =>
          if takes_value a then
            match rest with
            | v :: rest' =>
                o ← parse_valued a v; os ← parse_args rest'; Some (o :: os)
            | [] => None
            end
          else if is_option a then None
          else cons (OOutput a) <$> parse_args rest
      end
  end.

Fixpoint last_some {A B : Type} (f : A -> option B) (l : list A) : option B :=
  match l with
  | [] => None
  | a :: rest =>
      match last_some f rest with
      | Some b => Some b
      | None => f a
      end
  end.

Definition input_of (os : list opt) : option string :=
  last_some (fun o => match o with OInput p => Some p | _ => None end) os.

Definition output_of (os : list opt) : option string :=
  last_some (fun o => match o with OOutput p => Some p | _ => None end) os.

Definition duration_of (os : list opt) : option Z :=
  last_some (fun o => match o with ODuration t => Some t | _ => None end) os.

Definition chain_of (os : list opt) : option (list video_filter) :=
  last_some (fun o => match o with OFilter c => Some c | _ => None end) os.

Definition overwrites (os : list opt) : bool :=
  existsb (fun o => match o with OOverwrite => true | _ => false end) os.

Definition has_faststart (os : list opt) : bool :=
  existsb (fun o => match o with
                    | OMovflags flags => existsb (String.eqb "faststart") flags
                    | _ => false
                    end) os.

(** The codec chosen for a stream: the last [-c] that covers it. *)
Definition codec_of (s : stream) (os : list opt) : option string :=
  last_some (fun o => match o with
                      | OCodec AllStreams n => Some n
                      | OCodec VideoStream n =>
                          match s with VideoStream => Some n | _ => None end
                      | OCodec AudioStream n =>
                          match s with AudioStream => Some n | _ => None end
                      | _ => None
                      end) os.

Definition audio_bitrate_of (os : list opt) : option Z :=
  last_some (fun o => match o with OBitrate AudioStream b => Some b | _ => None end) os.

Definition is_copy (c : option string) : bool :=
  match c with Some n => String.eqb n "copy" | None => false end.

(** [-t seconds]: frames shown at or after the limit are left out, so
    [ceil (seconds * rate)] frames remain at most. *)
Definition frames_within (seconds : Z) (m : Media) : Z :=
  Z.min (frames m) ((seconds * rate_num m + rate_den m - 1) / rate_den m).

Definition limit_duration (t : option Z) (m : Media) : Media :=
  match t with
  | Some seconds => with_frames (frames_within seconds m) m
  | None => m
  end.

(** The streams as they are written: copied streams keep their codec (and
    the audio its bit rate), the others are encoded with the codec asked
    for, by default the ones of the MP4 muxer. *)
Definition encode_streams (os : list opt) (m : Media) : Media :=
  let cv := codec_of VideoStream os in
  let ca := codec_of AudioStream os in
  {| width := width m; height := height m;
     rate_num := rate_num m; rate_den := rate_den m; frames := frames m;
     vcodec := if is_copy cv then vcodec m else default "libx264" cv;
     acodec := if is_copy ca then acodec m else default "aac" ca;
     abitrate := if is_copy ca then abitrate m else default 128000 (audio_bitrate_of os);
     faststart := has_faststart os |}.

(** What a command makes of its input.  Filtering needs decoded pictures,
    so it is refused on a copied video stream. *)
Definition transcode (os : list opt) (m : Media) : option Media :=
  m1 ← match chain_of os with
       | Some chain =>
           if is_copy (codec_of VideoStream os) then None else apply_chain chain m
       | None => Some m
       end;
  Some (encode_streams os (limit_duration (duration_of os) m1)).

(** Running a command on the engine's files.  The input must exist and be
    readable; an existing output is replaced only when overwriting is on.
    A refused command leaves the files as they were. *)
Definition run_command (os : list opt) (files : gmap string File) : option (gmap string File) :=
  i ← input_of os;
  o ← output_of os;
  f ← files !! i;
  m ← match f with Clip m => Some m | Junk _ => None end;
  m' ← transcode os m;
  if bool_decide (is_Some (files !! o)) && negb (overwrites os) then None
  else Some (<[o := Clip m']> files).

(** *** The two commands of the page, as the engine reads them *)

Definition policy_crop_w : expr := EBin Div (EBin Mul (EVar "ih") (ENum 9)) (ENum 16).
Definition policy_pad_x : expr := EBin Div (EBin Sub (EVar "ow") (EVar "iw")) (ENum 2).
Definition policy_pad_y : expr := EBin Div (EBin Sub (EVar "oh") (EVar "ih")) (ENum 2).

Definition policy_chain : list video_filter :=
  [Fps 30;
   Crop policy_crop_w (EVar "ih") crop_default_x crop_default_y;
   Scale (ENum 720) (ENum 1280) Decrease;
   Pad (ENum 720) (ENum 1280) policy_pad_x policy_pad_y].

Definition trim_options : list opt :=
  [OInput "input.mp4"; ODuration 30; OCodec AllStreams "copy"; OOutput "trimmed.mp4"].

Definition encode_options : list opt :=
  [OInput "trimmed.mp4";
   OFilter policy_chain;
   OCodec VideoStream "libx264"; OPreset "medium"; OCrf 22;
   OCodec AudioStream "aac"; OBitrate AudioStream 192000;
   OMovflags ["faststart"];
   OOutput "output.mp4"].

(** A stream copy of [m] cut at 30 seconds. *)
Definition trimmed (m : Media) : Media :=
  {| width := width m; height := height m;
     rate_num := rate_num m; rate_den := rate_den m;
     frames := frames_within 30 m;
     vcodec := vcodec m; acodec := acodec m; abitrate := abitrate m;
     faststart := false |}.

(** Durations and the time between two frames, in seconds. *)
Definition duration (m : Media) : Q := Qmake (frames m * rate_den m) (Z.to_pos (rate_num m)).
Definition frame_interval (m : Media) : Q := Qmake (rate_den m) (Z.to_pos (rate_num m)).

(** *** The engine object *)

Record St : Type := { loaded : bool; files : gmap string File }.

(** The engine's front end puts these before the arguments of every
    command. *)
Definition default_args : list string := ["-nostdin"; "-y"].

Definition not_loaded : string := "ffmpeg is not loaded, call `await ffmpeg.load()` first".

Section Reference.

(** Whether the core named by a configuration can be fetched and
    started. *)
Variable can_load : LoadConfig -> bool.

Definition ref_load (cfg : LoadConfig) (st : St) : Outcome bool * St :=
  if can_load cfg then (Fulfilled (negb (loaded st)), {| loaded := true; files := files st |})
  else (Rejected "failed to import ffmpeg-core.js", st).

Definition ref_writeFile (path : string) (data : File) (st : St) : Outcome bool * St :=
  if loaded st then
    (Fulfilled true, {| loaded := true; files := <[path := data]> (files st) |})
  else (Rejected not_loaded, st).

(** [exec] resolves with the exit status of the command: [0] when the
    command ran, non-zero when it was refused.  It rejects only when the
    engine is not loaded. *)
Definition ref_exec (args : list string) (st : St) : Outcome Z * St :=
  if loaded st then
    match parse_args (default_args ++ args)%list with
    | Some os =>
        match run_command os (files st) with
        | Some files' => (Fulfilled 0, {| loaded := true; files := files' |})
        | None => (Fulfilled 1, st)
        end
    | None => (Fulfilled 1, st)
    end
  else (Rejected not_loaded, st).

Definition ref_readFile (path : string) (st : St) : Outcome File * St :=
  if loaded st then
    match files st !! path with
    | Some f => (Fulfilled f, st)
    | None => (Rejected "ErrnoError: FS error", st)
    end
  else (Rejected not_loaded, st).

Definition reference : API St File :=
  {| create := {| loaded := false; files := ∅ |};
     load := ref_load;
     writeFile := ref_writeFile;
     exec := ref_exec;
     readFile := ref_readFile |}.

End Reference.

(** The storage after the ingest write of a job on [m] started on [st],
    after its trim, and after an encode that produced [out]. *)
Definition after_ingest (m : Media) (st : St) : St :=
  {| loaded := true; files := <["input.mp4" := Clip m]> (files st) |}.

Definition after_trim (m : Media) (st : St) : St :=
  {| loaded := true;
     files := <["trimmed.mp4" := Clip (trimmed m)]> (files (after_ingest m st)) |}.

Definition after_encode (m out : Media) (st : St) : St :=
  {| loaded := true;
     files := <["output.mp4" := Clip out]> (files (after_trim m st)) |}.

End FFmpeg.

(** ** Reasoning about [async] bodies *)

Module Hoare.

Import Engine Page.

Section Triples.

Context {St Data : Type}.

Abbreviation World := (World St Data).

(** [triple P c Q R]: started in a world satisfying [P], the computation
    [c] ends in a world satisfying [Q] when it returns and [R] when it
    throws. *)
Definition triple {A : Type} (P : World -> Prop) (c : M A)
    (Q : A -> World -> Prop) (R : World -> Prop) : Prop :=
  forall w, P w ->
    match c w with
    | (Fulfilled a, w') => Q a w'
    | (Rejected _, w') => R w'
    end.

Definition same_urls (s s' : State) : Prop :=
  originalVideoUrl s' = originalVideoUrl s /\ trimmedVideoUrl s' = trimmedVideoUrl s.

(** A property of worlds that survives updates of the cells other than the
    two URLs, events being logged, and renders. *)
Definition stable (I : World -> Prop) : Prop :=
  (forall w f, (forall s, same_urls s (f s)) -> I w -> I (with_ui f w))
  /\ (forall w e, I w -> I (with_log e w))
  /\ (forall w, I w -> I (render w)).

Definition ref_stable (I : World -> Prop) : Prop :=
  forall w r, I w -> I (with_ref r w).

(** The URLs held by a state were all handed out before serial [n]. *)
Definition issued_below (n : nat) (s : State) : Prop :=
  (forall u, originalVideoUrl s = Some u -> (u < n)%nat)
  /\ (forall u, trimmedVideoUrl s = Some u -> (u < n)%nat).

(** Every URL the component holds has been handed out by the browser. *)
Definition urls_issued (w : World) : Prop :=
  issued_below (nextURL w) (ui w) /\ issued_below (nextURL w) (rendered w).

(** Before the original is shown: no URL in use is the next one. *)
Definition before_original (n : nat) (t0 : option URL) (w : World) : Prop :=
  nextURL w = n /\ trimmedVideoUrl (ui w) = t0
  /\ issued_below n (ui w) /\ issued_below n (rendered w).

(** After it is shown: [u] is the original's URL, it is live with [blob],
    and no cleanup that is still to run revokes it. *)
Definition original_shown (u : URL) (blob : Blob Data) (t0 : option URL) (w : World) : Prop :=
  originalVideoUrl (ui w) = Some u
  /\ trimmedVideoUrl (ui w) = t0
  /\ objectURLs w !! u = Some blob
  /\ trimmedVideoUrl (rendered w) <> Some u
  /\ (originalVideoUrl (rendered w) = Some u -> trimmedVideoUrl (rendered w) = t0)
  /\ t0 <> Some u.

(** The calls on the engine's files and commands. *)
Definition is_stage_event (e : Event Data) : bool :=
  match e with
  | EvWriteFile _ _ _ | EvExec _ _ | EvReadFile _ _ => true
  | _ => false
  end.

Definition stage_events (l : list (Event Data)) : list (Event Data) :=
  List.filter is_stage_event l.

(** The calls of a job that stopped at a rejected call. *)
Definition stopped (d : Data) (l : list (Event Data)) : Prop :=
  l = [EvWriteFile "input.mp4" d false]
  \/ l = [EvWriteFile "input.mp4" d true; EvExec trimArgs None]
  \/ (exists c1, l = [EvWriteFile "input.mp4" d true; EvExec trimArgs (Some c1);
                      EvExec encodeArgs None])
  \/ (exists c1 c2, l = [EvWriteFile "input.mp4" d true; EvExec trimArgs (Some c1);
                         EvExec encodeArgs (Some c2); EvReadFile "output.mp4" false]).

(** The calls of a job that ran to the end, with the exit statuses of the
    two commands. *)
Definition completed (d : Data) (c1 c2 : Z) : list (Event Data) :=
  [EvWriteFile "input.mp4" d true; EvExec trimArgs (Some c1);
   EvExec encodeArgs (Some c2); EvReadFile "output.mp4" true].

(** [l] is what the job has called so far, on top of [base]; the trimmed
    URL is still [t0]. *)
Definition called (base : list (Event Data)) (t0 : option URL)
    (l : list (Event Data)) (w : World) : Prop :=
  stage_events (log w) = (base ++ l)%list
  /\ trimmedVideoUrl (ui w) = t0
  /\ is_Some (ffmpegRef w).

Definition engine_at (st : St) (w : World) : Prop := ffmpegRef w = Some st.

End Triples.

End Hoare.

(** ** Working storage across invocations *)

Module Isolation.

Import Engine Page.

Definition working_files : list string := ["input.mp4"; "trimmed.mp4"; "output.mp4"].

(** The storage holds none of the pipeline's files. *)
Definition fresh_namespace (st : FFmpeg.St) : Prop :=
  Forall (fun name => FFmpeg.files st !! name = None) working_files.

(** The output file of a command is its last argument. *)
Definition output_path (args : list string) : string := List.last args EmptyString.

(** Before the [i]-th event, a command with [args], the job replaced the
    command's output file itself, or the command carries the overwrite
    flag.  (The page has no call that deletes a file.) *)
Definition clears_before {Data : Type} (events : list (Event Data)) (i : nat)
    (args : list string) : Prop :=
  In "-y" args
  \/ exists j data fulfilled,
       (j < i)%nat /\ events !! j = Some (EvWriteFile (output_path args) data fulfilled).

(** An invocation with the given events, started on storage [st], is
    isolated from earlier ones. *)
Definition isolated {Data : Type} (st : FFmpeg.St) (events : list (Event Data)) : Prop :=
  fresh_namespace st
  \/ forall i args status,
       events !! i = Some (EvExec args status) -> clears_before events i args.

End Isolation.

(** ** Sample data *)

Module Samples.

Import Engine Page FFmpeg.

(** A 45 second 640x360 clip at 30 frames per second. *)
Definition landscape : Media :=
  {| width := 640; height := 360; rate_num := 30; rate_den := 1; frames := 1350;
     vcodec := "h264"; acodec := "aac"; abitrate := 96000; faststart := true |}.

(** A 10 second 400x1000 clip: narrower than 9:16. *)
Definition narrow : Media :=
  {| width := 400; height := 1000; rate_num := 30; rate_den := 1; frames := 300;
     vcodec := "h264"; acodec := "aac"; abitrate := 96000; faststart := true |}.

Definition initial_state : State :=
  {| status := None; error := None; videos := [];
     originalVideoUrl := None; trimmedVideoUrl := None; searchQuery := EmptyString |}.

(** The component when it mounts. *)
Definition initial : World St File :=
  {| ui := initial_state; rendered := initial_state; ffmpegRef := None;
     objectURLs := ∅; nextURL := O; log := [] |}.

(** An acquisition route that serves [landscape] for the id 'landscape'
    and an unreadable body, with status 200, for the id 'junk'. *)
Definition acquire_stub (req : FetchRequest) : Outcome (FetchResponse File) :=
  match fetch_body req with
  | JS.JObj [(_, JS.JStr videoId)] =>
      if String.eqb videoId "landscape" then
        Fulfilled {| ok := true; json := Rejected "not JSON";
                     arrayBuffer := Fulfilled (Clip landscape) |}
      else if String.eqb videoId "junk" then
        Fulfilled {| ok := true; json := Rejected "not JSON";
                     arrayBuffer := Fulfilled (Junk EmptyString) |}
      else
        Fulfilled {| ok := false;
                     json := Fulfilled (JS.JObj [("error", JS.JStr "Failed to process video")]);
                     arrayBuffer := Rejected "no body" |}
  | _ => Rejected "TypeError: Failed to fetch"
  end.

Definition blob_url_stub (url mime : string) : Outcome string := Fulfilled ("blob:" ++ url).

Definition item (videoId : string) : Search.YouTubeVideoItem :=
  {| Search.id := Some {| Search.videoId := Some videoId |}; Search.snippet := None |}.

(** An engine whose core loads, and one whose core cannot be fetched. *)
Definition engine_up : API St File := reference (fun _ => true).
Definition engine_down : API St File := reference (fun _ => false).

(** The component after [loadFFmpeg], in both cases. *)
Definition ready : World St File := run (loadFFmpeg engine_up blob_url_stub) initial.
Definition load_failed : World St File := run (loadFFmpeg engine_down blob_url_stub) initial.

(** The component after a first job on 'landscape'. *)
Definition after_first_job : World St File :=
  run (processVideo engine_up acquire_stub (item "landscape")) ready.

(** ... and after a second job on the same id. *)
Definition after_second_job : World St File :=
  run (processVideo engine_up acquire_stub (item "landscape")) after_first_job.

(** Engine storage right after an ingest of [m], and right after a trim
    that produced [m]. *)
Definition ingested (m : Media) : St :=
  {| loaded := true; files := {[ "input.mp4" := Clip m ]} |}.

Definition holding_trimmed (m : Media) : St :=
  {| loaded := true; files := {[ "trimmed.mp4" := Clip m ]} |}.

(** The events a call adds to the log. *)
Definition new_events {S D : Type} (before after : World S D) : list (Event D) :=
  drop (length (log before)) (log after).

(** Fifty search results, a provider that returns them, and a
    [Math.random] that alternates between 0 and just under 1. *)
Definition fifty : list Search.YouTubeVideoItem :=
  map (fun n => item (JS.num_to_string (Z.of_nat n))) (seq 0 50).

Definition provider_stub (items : list Search.YouTubeVideoItem)
    (call : Search.SearchCall) : Search.ApiError + option (list Search.YouTubeVideoItem) :=
  inr (Some items).

Definition coin (k : nat) : Z := if Nat.even k then 0 else 2 ^ 53 - 1.

Definition env_with_key : Search.Env := {| Search.YOUTUBE_API_KEY := Some "key" |}.

Definition request_with (pairs : list (string * string)) : Search.Request :=
  {| Search.searchParams := pairs |}.

End Samples.

(** ** Query strings

    The page puts the search term into the request URL with
    [encodeURIComponent]; the route reads it back with
    [new URL(request.url).searchParams].  Both are built into the platform.
    A string stands for the UTF-8 bytes of the JavaScript string, which is
    what both functions work on. *)

Module URI.

(** The characters [encodeURIComponent] leaves as they are: letters,
    digits and [- _ . ! ~ * ' ( )]. *)
Definition unreserved (c : ascii) : bool :=
  let n := nat_of_ascii c in
  ((48 <=? n)%nat && (n <=? 57)%nat)
  || ((65 <=? n)%nat && (n <=? 90)%nat)
  || ((97 <=? n)%nat && (n <=? 122)%nat)
  || existsb (Nat.eqb n) [45; 95; 46; 33; 126; 42; 39; 40; 41]%nat.

(** Upper-case hexadecimal digit of [n < 16]. *)
Definition hex_digit (n : nat) : ascii :=
  ascii_of_nat (if (n <? 10)%nat then 48 + n else 55 + n).

(** The value of a hexadecimal digit of either case. *)
Definition hex_value (c : ascii) : option nat :=
  let n := nat_of_ascii c in
  if ((48 <=? n)%nat && (n <=? 57)%nat) then Some (n - 48)%nat
  else if ((65 <=? n)%nat && (n <=? 70)%nat) then Some (n - 55)%nat
  else if ((97 <=? n)%nat && (n <=? 102)%nat) then Some (n - 87)%nat
  else None.

Definition escape (c : ascii) : string :=
  let n := nat_of_ascii c in
  String "%" (String (hex_digit (n / 16)) (String (hex_digit (n mod 16)) EmptyString)).

(** What one byte becomes. *)
Definition encoded (c : ascii) : string :=
  if unreserved c then String c EmptyString else escape c.

(** [encodeURIComponent(s)] *)
Fixpoint encodeURIComponent (s : string) : string :=
  match s with
  | EmptyString => EmptyString
  | String c rest => encoded c ++ encodeURIComponent rest
  end.

(** Percent-decoding: [%XY] with two hexadecimal digits is one byte, any
    other [%] stands for itself. *)
Fixpoint percent_decode (s : string) : string :=
  match s with
  | EmptyString => EmptyString
  | String c t =>
      if Ascii.eqb c "%" then
        match t with
        | String a (String b rest) =>
            match hex_value a, hex_value b with
            | Some x, Some y => String (ascii_of_nat (16 * x + y)) (percent_decode rest)
            | _, _ => String c (percent_decode t)
            end
        | _ => String c (percent_decode t)
        end
      else String c (percent_decode t)
  end.

Fixpoint plus_to_space (s : string) : string :=
  match s with
  | EmptyString => EmptyString
  | String c t => String (if Ascii.eqb c "+" then " "%char else c) (plus_to_space t)
  end.

(** One [name=value] piece of a query; a piece without [=] is a name with
    an empty value. *)
Definition parse_pair (piece : string) : string * string :=
  let '(name, value) :=
    match FFmpeg.cut "=" piece with
    | Some p => p
    | None => (piece, EmptyString)
    end in
  (percent_decode (plus_to_space name), percent_decode (plus_to_space value)).

(** The pairs of a query string, as [URLSearchParams] lists them: the
    pieces between [&], empty pieces skipped. *)
Definition parse_query (query : string) : list (string * string) :=
  map parse_pair
      (List.filter (fun piece => negb (String.eqb piece EmptyString))
                   (FFmpeg.split_on "&" query)).

(** The query of a URL: what follows the first [?], up to a [#].  (The
    escapes that URL parsing adds to a query are undone by
    [percent_decode], so they are left out.) *)
Definition search_of (url : string) : string :=
  let before_fragment :=
    match FFmpeg.cut "#" url with Some (a, _) => a | None => url end in
  match FFmpeg.cut "?" before_fragment with
  | Some (_, q) => q
  | None => EmptyString
  end.

(** The request the search route sees for a URL. *)
Definition request_of (url : string) : Search.Request :=
  {| Search.searchParams := parse_query (search_of url) |}.

End URI.

(** ** The page component: searching and picking a video *)

Module Browse.

Import Engine Page.

(** [await response.json()] of a search response, as [fetchVideos] looks at
    it: an array is taken for the list of videos ([Array.isArray(data)]),
    anything else is left alone. *)
Inductive Parsed : Type :=
| IsArray (items : list Search.YouTubeVideoItem)
| NotArray (j : JS.json).

(** The URL of the search request. *)
Definition search_url (query : string) : string :=
  "/api/collect-videos?q=" ++ URI.encodeURIComponent query.

Section Component.

Context {St Data : Type}.

Variable engine : API St Data.
Variable fetch : FetchRequest -> Outcome (FetchResponse Data).

(** [fetch(url)] for the search request: the promise of the response,
    which holds the promise of its parsed body. *)
Variable fetch_json : string -> Outcome (Outcome Parsed).

Definition setVideos (v : list Search.YouTubeVideoItem) : M (St := St) (Data := Data) unit :=
  modify (with_ui (fun s =>
    {| status := status s; error := error s; videos := v;
       originalVideoUrl := originalVideoUrl s; trimmedVideoUrl := trimmedVideoUrl s;
       searchQuery := searchQuery s |})).

(** The [try] block of [fetchVideos]. *)
Definition search (query : string) : M (St := St) (Data := Data) unit :=
  bind (setStatus (Some "Searching videos...")) (fun _ =>
  bind (await (lift (fetch_json (search_url query)))) (fun response =>
  bind (await (lift response)) (fun data =>
  bind (match data with
        | IsArray items => setVideos items
        | NotArray _ => ret tt
        end) (fun _ =>
  setStatus None)))).

(** [fetchVideos(query)] *)
Definition fetchVideos (query : string) : M (St := St) (Data := Data) unit :=
  try_catch (search query)
            (fun _ => bind (setError (Some "Failed to fetch videos")) (fun _ => setStatus None)).

(** [Math.floor(Math.random() * n)], for the value [r] of [Math.random()]
    in units of [2^-53]; the product is taken exactly. *)
Definition random_index (r : Z) (n : nat) : nat := Z.to_nat (r * Z.of_nat n / 2 ^ 53).

(** [processRandomVideo()], with the value [r] that [Math.random()] gives.
    [videos] is the list of the render the handler was created in.  The
    promise of [processVideo] is dropped; a call with [undefined] would
    throw at [video.id] once the engine check has passed. *)
Definition processRandomVideo (r : Z) : M (St := St) (Data := Data) unit :=
  fun w =>
    let videos := videos (rendered w) in
    if (0 <? length videos)%nat then
      match videos !! random_index r (length videos) with
      | Some randomVideo => processVideo engine fetch randomVideo w
      | None =>
          match ffmpegRef w with
          | None => (Fulfilled tt, w)
          | Some _ => (Rejected "TypeError: cannot read properties of undefined", w)
          end
      end
    else (Fulfilled tt, w).

End Component.

(** The search route behind [fetch]: the body of its response as
    [response.json()] parses it. *)
Definition parsed_body (b : Search.Body) : Parsed :=
  match b with
  | Search.Videos items => IsArray items
  | Search.Failure msg None => NotArray (JS.JObj [("message", JS.JStr msg)])
  | Search.Failure msg (Some e) =>
      NotArray (JS.JObj [("message", JS.JStr msg); ("error", JS.JStr e)])
  end.

Definition route_fetch
    (search_list : Search.SearchCall -> Search.ApiError + option (list Search.YouTubeVideoItem))
    (random : nat -> Z) (env : Search.Env) (url : string) : Outcome (Outcome Parsed) :=
  Fulfilled (Fulfilled (parsed_body
    (Search.body (fst (Search.GET search_list random env (URI.request_of url)))))).

End Browse.

(** ** States of the page between two user actions *)

Module Lifecycle.

Import Engine Page.

(** The latest render shows the two URLs the state cells hold: no change
    of them is waiting for a render. *)
Definition settled {St Data : Type} (w : World St Data) : Prop :=
  originalVideoUrl (rendered w) = originalVideoUrl (ui w)
  /\ trimmedVideoUrl (rendered w) = trimmedVideoUrl (ui w).

(** The download of [processVideo] fails: the request is rejected, the
    response is not [ok], or its body cannot be read. *)
Definition download_fails {Data : Type}
    (fetch : FetchRequest -> Outcome (FetchResponse Data)) (videoId : string) : Prop :=
  match fetch (process_video_request videoId) with
  | Rejected _ => True
  | Fulfilled response => ok response = false \/ exists e, arrayBuffer response = Rejected e
  end.

(** One of the four awaited engine calls of a job on [d], started on the
    engine state [st], rejects. *)
Definition stage_rejects {St Data : Type} (engine : API St Data) (d : Data) (st : St) : Prop :=
  (exists e st1, writeFile engine "input.mp4" d st = (Rejected e, st1))
  \/ (exists b st1 e st2,
        writeFile engine "input.mp4" d st = (Fulfilled b, st1)
        /\ exec engine trimArgs st1 = (Rejected e, st2))
  \/ (exists b st1 c1 st2 e st3,
        writeFile engine "input.mp4" d st = (Fulfilled b, st1)
        /\ exec engine trimArgs st1 = (Fulfilled c1, st2)
        /\ exec engine encodeArgs st2 = (Rejected e, st3))
  \/ (exists b st1 c1 st2 c2 st3 e st4,
        writeFile engine "input.mp4" d st = (Fulfilled b, st1)
        /\ exec engine trimArgs st1 = (Fulfilled c1, st2)
        /\ exec engine encodeArgs st2 = (Fulfilled c2, st3)
        /\ readFile engine "output.mp4" st3 = (Rejected e, st4)).

(** Every object URL that is live is held by one of the two state
    cells: nothing has been created and then forgotten. *)
Definition no_stray_urls {St Data : Type} (w : World St Data) : Prop :=
  forall u, is_Some (objectURLs w !! u) ->
    originalVideoUrl (ui w) = Some u \/ trimmedVideoUrl (ui w) = Some u.

(** The URLs a state cell holds, as a set. *)
Definition shown (url : option URL) : gset nat :=
  match url with Some u => {[u]} | None => ∅ end.

(** The component when it mounts: the initial values of [useState] and
    [useRef]. *)
Definition mounted {St Data : Type} : World St Data :=
  {| ui := {| status := None; error := None; videos := [];
              originalVideoUrl := None; trimmedVideoUrl := None;
              searchQuery := EmptyString |};
     rendered := {| status := None; error := None; videos := [];
                    originalVideoUrl := None; trimmedVideoUrl := None;
                    searchQuery := EmptyString |};
     ffmpegRef := None; objectURLs := ∅; nextURL := O; log := [] |}.

(** What can happen to the page, one thing after the other: the engine is
    loaded, a search is made, a video is clicked, the random button is
    clicked.  Each comes with what the network answers at that time, and,
    for the random button, with the value of [Math.random()]. *)
Inductive Action (Data : Type) : Type :=
| Load (toBlobURL : string -> string -> Outcome string)
| SearchFor (fetch_json : string -> Outcome (Outcome Browse.Parsed)) (query : string)
| Process (fetch : FetchRequest -> Outcome (FetchResponse Data))
          (video : Search.YouTubeVideoItem)
| ProcessRandom (fetch : FetchRequest -> Outcome (FetchResponse Data)) (r : Z).
Arguments Load {Data} _.
Arguments SearchFor {Data} _ _.
Arguments Process {Data} _ _.
Arguments ProcessRandom {Data} _ _.

Definition perform {St Data : Type} (engine : API St Data) (a : Action Data)
    (w : World St Data) : World St Data :=
  match a with
  | Load toBlobURL => run (loadFFmpeg engine toBlobURL) w
  | SearchFor fetch_json query => run (Browse.fetchVideos fetch_json query) w
  | Process fetch video => run (processVideo engine fetch video) w
  | ProcessRandom fetch r => run (Browse.processRandomVideo engine fetch r) w
  end.

(** A session: actions one after the other, each run to its end. *)
Definition session {St Data : Type} (engine : API St Data) (actions : list (Action Data))
    (w : World St Data) : World St Data :=
  fold_left (fun w a => perform engine a w) actions w.

End Lifecycle.

(** ** Sample data for searching and repeated jobs *)

Module Scenes.

Import Engine Page FFmpeg.

(** A search route that answers every request with two videos. *)
Definition search_stub (url : string) : Outcome (Outcome Browse.Parsed) :=
  Fulfilled (Fulfilled (Browse.IsArray [Samples.item "landscape"; Samples.item "junk"])).

(** The loaded page after a search. *)
Definition listed : World St File :=
  run (Browse.fetchVideos search_stub "cats") Samples.ready.

(** The page after a first job and a second [loadFFmpeg]: the result of
    the job is shown, the engine object is new. *)
Definition reloaded : World St File :=
  run (loadFFmpeg Samples.engine_up Samples.blob_url_stub) Samples.after_first_job.

Definition three : list Search.YouTubeVideoItem :=
  [Samples.item "a"; Samples.item "b"; Samples.item "c"].

(** A session: load, search, a job, and a click on the random button. *)
Definition afternoon : list (Lifecycle.Action File) :=
  [Lifecycle.Load Samples.blob_url_stub;
   Lifecycle.SearchFor search_stub "cats";
   Lifecycle.Process Samples.acquire_stub (Samples.item "landscape");
   Lifecycle.ProcessRandom Samples.acquire_stub (2 ^ 52)].

End Scenes.

(** * Properties *)

(** ** Acquisition route *)

Section AcquireFacts.

Import JS Acquire.

Context {Stream : Type}.
Variable ytdl : YtdlCall -> option Stream.

Lemma truthy_string (s : string) :
  truthy (Some (JStr s)) = true <-> s <> EmptyString.
Proof.
  simpl. destruct (String.eqb_spec s EmptyString) as [-> | Hne]; simpl.
  - split; [discriminate | congruence].
  - split; [intros _; exact Hne | reflexivity].
Qed.

Lemma POST_unparsed : POST ytdl None = (json_error "Failed to process video" 500, []).
Proof. reflexivity. Qed.

Lemma POST_falsy (b : json) (v : value) :
  get_prop b "videoId" = inr v ->
  truthy v = false ->
  POST ytdl (Some b) = (json_error "Video ID is required" 400, []).
Proof.
  intros Hget Hv. unfold POST. rewrite Hget, Hv. reflexivity.
Qed.

Lemma POST_truthy (b : json) (v : json) :
  get_prop b "videoId" = inr (Some v) ->
  truthy (Some v) = true ->
  snd (POST ytdl (Some b)) = [resolver_call v].
Proof.
  intros Hget Hv. unfold POST. rewrite Hget, Hv. simpl.
  fold (resolver_call v). destruct (ytdl (resolver_call v)); reflexivity.
Qed.

Lemma POST_calls_at_most_once (parsed : option json) :
  snd (POST ytdl parsed) = [] \/
  exists b v, parsed = Some b /\ get_prop b "videoId" = inr (Some v) /\
              truthy (Some v) = true /\ snd (POST ytdl parsed) = [resolver_call v].
Proof.
  destruct parsed as [b |]; [| left; reflexivity].
  destruct (get_prop b "videoId") as [e | v] eqn:Hget.
  - left. unfold POST. rewrite Hget. reflexivity.
  - destruct (truthy v) eqn:Hv.
    + destruct v as [v |]; [| discriminate].
      right. exists b, v. repeat split; auto using POST_truthy.
    + left. rewrite (POST_falsy b v Hget Hv). reflexivity.
Qed.


End AcquireFacts.



(** ** Search route *)

Section ShuffleFacts.

Import Search.

Context {A : Type}.
Variable random : nat -> Z.

Lemma insert_by_perm (x : A) (l : list A) (k : nat) :
  Permutation (fst (insert_by random x l k)) (x :: l).
Proof.
  revert k. induction l as [| y l IH]; intros k; simpl.
  - reflexivity.
  - destruct (Z.ltb 0 (comparator random k)); simpl.
    + reflexivity.
    + specialize (IH (S k)).
      destruct (insert_by random x l (S k)) as [r k']. simpl in *.
      rewrite IH. apply perm_swap.
Qed.

Lemma sort_by_perm (l : list A) (k : nat) :
  Permutation (fst (sort_by random l k)) l.
Proof.
  induction l as [| x l IH]; simpl.
  - reflexivity.
  - destruct (sort_by random l k) as [s k']. simpl in IH.
    rewrite insert_by_perm. constructor. exact IH.
Qed.

Lemma shuffle_perm (l : list A) : Permutation (shuffle random l) l.
Proof. apply sort_by_perm. Qed.

Lemma shuffle_length (l : list A) : length (shuffle random l) = length l.
Proof. apply Permutation_length, shuffle_perm. Qed.

End ShuffleFacts.

Section SearchFacts.

Import Search.

Variable search_list : SearchCall -> ApiError + option (list YouTubeVideoItem).
Variable random : nat -> Z.

Lemma GET_key_present (env : Env) (request : Request) (apiKey : string) :
  YOUTUBE_API_KEY env = Some apiKey ->
  apiKey <> EmptyString ->
  GET search_list random env request =
  let params := search_call apiKey request in
  match search_list params with
  | inr items =>
      ({| status := 200;
          body := Videos (take 10 (shuffle random (items_or_empty items))) |}, [params])
  | inl e =>
      ({| status := 500;
          body := Failure "Error fetching videos from YouTube API."
                          (Some (error_message e)) |}, [params])
  end.
Proof.
  intros Hkey Hne. unfold GET. rewrite Hkey.
  destruct (String.eqb_spec apiKey EmptyString) as [-> | _]; [congruence |].
  reflexivity.
Qed.


(** C7.  Without a credential (no key, or an empty one) the route answers
    with status 500 and a message, and asks the provider nothing. *)
Theorem GET_without_key (env : Env) (request : Request) :
  YOUTUBE_API_KEY env = None \/ YOUTUBE_API_KEY env = Some EmptyString ->
  GET search_list random env request =
    ({| status := 500;
        body := Failure "YouTube API Key is not configured on the server." None |}, [])
  /\ status (fst (GET search_list random env request)) <> 200
  /\ (forall items, body (fst (GET search_list random env request)) <> Videos items)
  /\ "YouTube API Key is not configured on the server." <> EmptyString.
Proof.
  intros Hkey.
  assert (H : GET search_list random env request =
    ({| status := 500;
        body := Failure "YouTube API Key is not configured on the server." None |}, [])).
  { unfold GET. destruct Hkey as [-> | ->]; reflexivity. }
  rewrite H. simpl. repeat split; try discriminate. 
Qed.

(** C8, as amended.  With a credential, a request whose [q] is absent and
    a request whose [q] is the empty string are treated alike: the
    provider is asked for 'trending'.  Any other [q] is passed on as it is.
    In every case the status is 200 or 500, never a client error. *)
Theorem GET_query_fallback (env : Env) (request : Request) (apiKey : string) :
  YOUTUBE_API_KEY env = Some apiKey ->
  apiKey <> EmptyString ->
  (searchParams_get "q" (searchParams request) = None
   \/ searchParams_get "q" (searchParams request) = Some EmptyString ->
     q (search_call apiKey request) = "trending")
  /\ (forall s, searchParams_get "q" (searchParams request) = Some s -> s <> EmptyString ->
        q (search_call apiKey request) = s)
  /\ snd (GET search_list random env request) = [search_call apiKey request]
  /\ (status (fst (GET search_list random env request)) = 200
      \/ status (fst (GET search_list random env request)) = 500).
Proof.
  intros Hkey Hne. split; [| split; [| split]].
  - intros [H | H]; simpl; rewrite H; reflexivity.
  - intros s H Hs. simpl. rewrite H. simpl.
    destruct (String.eqb_spec s EmptyString); [congruence | reflexivity].
  - rewrite (GET_key_present env request apiKey Hkey Hne). cbv zeta.
    destruct (search_list (search_call apiKey request)); reflexivity.
  - rewrite (GET_key_present env request apiKey Hkey Hne). cbv zeta.
    destruct (search_list (search_call apiKey request)); simpl; auto.
Qed.

End SearchFacts.

(** ** The reference engine on the page's two commands *)

Section EngineFacts.

Import Engine Page FFmpeg.

Lemma lrint_inject_Z (n : Z) : lrint (inject_Z n) = n.
Proof.
  unfold lrint. simpl. rewrite Z.div_1_r, Z.mod_1_r. reflexivity.
Qed.

(** [lrint q] is within one half of [q]. *)
Lemma lrint_bounds (q : Q) :
  2 * Qnum q - Zpos (Qden q) <= 2 * Zpos (Qden q) * lrint q <= 2 * Qnum q + Zpos (Qden q).
Proof.
  unfold lrint.
  set (n := Qnum q). set (d := Zpos (Qden q)).
  assert (Hd : 0 < d) by (subst d; lia).
  pose proof (Z.div_mod n d ltac:(lia)) as Hdm.
  pose proof (Z.mod_pos_bound n d Hd) as Hm.
  destruct (Z.compare_spec (2 * (n mod d)) d) as [Heq | Hlt | Hgt].
  - destruct (Z.even (n / d)); nia.
  - nia.
  - nia.
Qed.

Lemma align_down_bounds (n : Z) : n - 1 <= align_down n <= n.
Proof. unfold align_down. pose proof (Z.mod_pos_bound n 2 ltac:(lia)). lia. Qed.

Lemma align_down_is_even (n : Z) : exists k, align_down n = 2 * k.
Proof.
  exists (n / 2). unfold align_down. pose proof (Z.div_mod n 2 ltac:(lia)). lia.
Qed.

(** The crop of the page's filter chain fits every picture that is at
    least 9/16 as wide as it is high, and leaves a window of roughly that
    shape. *)
Lemma crop_policy (iw ih : Z) :
  9 * ih <= 16 * iw -> 3 <= ih ->
  exists x y cw ch,
    crop_window policy_crop_w (EVar "ih") crop_default_x crop_default_y iw ih
      = Some (x, y, cw, ch)
    /\ 0 < cw <= iw /\ 0 < ch <= ih /\ ch <= 1280 * cw /\ cw <= 720 * ch.
Proof.
  intros Hw Hh. unfold crop_window, policy_crop_w.
  cbn -[lrint align_down trunc clamp Z.mul Z.sub Z.add Z.leb Z.ltb Qeq_bool].
  change (Qeq_bool (inject_Z 16) (inject_Z 0)) with false.
  change (Qeq_bool (inject_Z 2) (inject_Z 0)) with false.
  cbn -[lrint align_down trunc clamp Z.mul Z.sub Z.add Z.leb Z.ltb].
  rewrite lrint_inject_Z.
  set (q := (inject_Z ih * inject_Z 9 / inject_Z 16)%Q).
  pose proof (lrint_bounds q) as HL.
  assert (Hn : Qnum q = ih * 9 * 1) by reflexivity.
  assert (Hden : Zpos (Qden q) = 16) by reflexivity.
  rewrite Hn, Hden in HL.
  pose proof (align_down_bounds (lrint q)) as Hcw.
  pose proof (align_down_bounds ih) as Hch.
  destruct (align_down_is_even (lrint q)) as [k Hk].
  destruct (align_down_is_even ih) as [k' Hk'].
  assert (H1 : 0 < align_down (lrint q)) by lia.
  assert (H2 : 0 < align_down ih) by lia.
  assert (H3 : align_down (lrint q) <= iw) by lia.
  assert (H4 : align_down ih <= ih) by lia.
  rewrite (proj2 (Z.ltb_lt _ _) H1), (proj2 (Z.ltb_lt _ _) H2),
          (proj2 (Z.leb_le _ _) H3), (proj2 (Z.leb_le _ _) H4).
  simpl. do 4 eexists. split; [reflexivity |]. lia.
Qed.

Lemma scale_policy (iw ih : Z) :
  0 < iw -> 0 < ih -> ih <= 1280 * iw -> iw <= 720 * ih ->
  exists sw sh,
    scale_size (ENum 720) (ENum 1280) Decrease iw ih = Some (sw, sh)
    /\ 0 < sw <= 720 /\ 0 < sh <= 1280.
Proof.
  intros Hiw Hih H1 H2. unfold scale_size.
  cbn -[rescale Z.min Z.ltb].
  change (trunc (inject_Z 720)) with 720. change (trunc (inject_Z 1280)) with 1280.
  change ((0 <? 720)%Z && (0 <? 1280)%Z) with true. cbv iota.
  assert (Hw : 0 < rescale 1280 iw ih).
  { unfold rescale. apply Z.div_str_pos.
    pose proof (Z.div_pos ih 2 ltac:(lia) ltac:(lia)). lia. }
  assert (Hh : 0 < rescale 720 ih iw).
  { unfold rescale. apply Z.div_str_pos.
    pose proof (Z.div_pos iw 2 ltac:(lia) ltac:(lia)). lia. }
  assert (Hw' : 0 < Z.min (rescale 1280 iw ih) 720) by lia.
  assert (Hh' : 0 < Z.min (rescale 720 ih iw) 1280) by lia.
  rewrite (proj2 (Z.ltb_lt _ _) Hw'), (proj2 (Z.ltb_lt _ _) Hh'). simpl.
  do 2 eexists. split; [reflexivity |]. lia.
Qed.

Lemma pad_policy (iw ih : Z) :
  iw <= 720 -> ih <= 1280 ->
  exists x y,
    pad_canvas (ENum 720) (ENum 1280) policy_pad_x policy_pad_y iw ih = Some (x, y, 720, 1280).
Proof.
  intros Hw Hh. unfold pad_canvas, policy_pad_x, policy_pad_y.
  cbn -[Z.leb Z.ltb Z.div Z.sub Z.add trunc align_down Qeq_bool].
  change (Qeq_bool (inject_Z 2) (inject_Z 0)) with false.
  change (align_down (trunc (inject_Z 720))) with 720.
  change (align_down (trunc (inject_Z 1280))) with 1280.
  cbn -[Z.leb Z.ltb Z.div Z.sub Z.add trunc align_down].
  rewrite (proj2 (Z.leb_le _ _) Hw), (proj2 (Z.leb_le _ _) Hh). simpl.
  do 2 eexists. reflexivity.
Qed.

Lemma chain_policy (m : Media) :
  9 * height m <= 16 * width m -> 3 <= height m ->
  exists m',
    apply_chain policy_chain m = Some m'
    /\ width m' = 720 /\ height m' = 1280 /\ rate_num m' = 30 /\ rate_den m' = 1
    /\ vcodec m' = vcodec m /\ acodec m' = acodec m /\ abitrate m' = abitrate m
    /\ frames m' = rescale (frames m * rate_den m) 30 (rate_num m).
Proof.
  intros Hw Hh.
  destruct (crop_policy (width m) (height m) Hw Hh)
    as (x & y & cw & ch & Hcrop & Hcw & Hch & Hr1 & Hr2).
  destruct (scale_policy cw ch ltac:(lia) ltac:(lia) Hr1 Hr2)
    as (sw & sh & Hscale & Hsw & Hsh).
  destruct (pad_policy sw sh ltac:(lia) ltac:(lia)) as (px & py & Hpad).
  unfold policy_chain, apply_chain, apply_filter.
  change (0 <? 30)%Z with true. cbv iota.
  cbn [mbind option_bind with_rate width height].
  rewrite Hcrop. cbn [mbind option_bind with_size width height].
  rewrite Hscale. cbn [mbind option_bind with_size width height].
  rewrite Hpad. cbn [mbind option_bind].
  eexists. split; [reflexivity |]. repeat split.
Qed.

Lemma parse_trimArgs : parse_args trimArgs = Some trim_options.
Proof. reflexivity. Qed.

Lemma parse_encodeArgs : parse_args encodeArgs = Some encode_options.
Proof. vm_compute. reflexivity. Qed.

Lemma parse_default_args (args : list string) :
  parse_args (default_args ++ args) = (fun os => ONoStdin :: OOverwrite :: os) <$> parse_args args.
Proof. simpl. destruct (parse_args args); reflexivity. Qed.

Lemma transcode_trim (m : Media) :
  transcode (ONoStdin :: OOverwrite :: trim_options) m = Some (trimmed m).
Proof. reflexivity. Qed.

Lemma transcode_encode (m : Media) :
  9 * height m <= 16 * width m -> 3 <= height m ->
  exists m',
    transcode (ONoStdin :: OOverwrite :: encode_options) m = Some m'
    /\ width m' = 720 /\ height m' = 1280 /\ rate_num m' = 30 /\ rate_den m' = 1
    /\ vcodec m' = "libx264" /\ acodec m' = "aac" /\ abitrate m' = 192000
    /\ faststart m' = true
    /\ frames m' = rescale (frames m * rate_den m) 30 (rate_num m).
Proof.
  intros Hw Hh.
  destruct (chain_policy m Hw Hh) as (m1 & Hchain & Hw1 & Hh1 & Hn1 & Hd1 & _ & _ & _ & Hf1).
  unfold transcode.
  change (chain_of (ONoStdin :: OOverwrite :: encode_options)) with (Some policy_chain).
  change (is_copy (codec_of VideoStream (ONoStdin :: OOverwrite :: encode_options))) with false.
  cbv iota. rewrite Hchain. cbn [mbind option_bind].
  eexists. split; [reflexivity |].
  cbn. repeat split; assumption.
Qed.

(** With overwriting on, a command that can read its input replaces its
    output, whether or not a file of that name exists. *)
Lemma run_overwrites (os : list opt) (fs : gmap string File) (i o : string) (m m' : Media) :
  input_of os = Some i -> output_of os = Some o -> overwrites os = true ->
  fs !! i = Some (Clip m) -> transcode os m = Some m' ->
  run_command os fs = Some (<[o := Clip m']> fs).
Proof.
  intros Hi Ho Hy Hf Ht. unfold run_command.
  rewrite Hi, Ho. simpl. rewrite Hf. simpl. rewrite Ht. simpl.
  rewrite Hy. rewrite andb_false_r. reflexivity.
Qed.

Section Exec.

Variable can_load : LoadConfig -> bool.

Lemma exec_trim (st : St) (m : Media) :
  loaded st = true -> files st !! "input.mp4" = Some (Clip m) ->
  exec (reference can_load) trimArgs st =
    (Fulfilled 0, {| loaded := true; files := <["trimmed.mp4" := Clip (trimmed m)]> (files st) |}).
Proof.
  intros Hl Hf. change (exec (reference can_load)) with ref_exec.
  unfold ref_exec. rewrite Hl, parse_default_args, parse_trimArgs.
  cbn [fmap option_fmap option_map].
  rewrite (run_overwrites _ _ "input.mp4" "trimmed.mp4" m (trimmed m)); auto.
Qed.

Lemma exec_encode (st : St) (m m' : Media) :
  loaded st = true -> files st !! "trimmed.mp4" = Some (Clip m) ->
  transcode (ONoStdin :: OOverwrite :: encode_options) m = Some m' ->
  exec (reference can_load) encodeArgs st =
    (Fulfilled 0, {| loaded := true; files := <["output.mp4" := Clip m']> (files st) |}).
Proof.
  intros Hl Hf Ht. change (exec (reference can_load)) with ref_exec.
  unfold ref_exec. rewrite Hl, parse_default_args, parse_encodeArgs.
  cbn [fmap option_fmap option_map].
  rewrite (run_overwrites _ _ "trimmed.mp4" "output.mp4" m m'); auto.
Qed.

End Exec.

Lemma frames_within_short (m : Media) (s : Z) :
  well_formed m -> frames m * rate_den m <= s * rate_num m -> frames_within s m = frames m.
Proof.
  intros (_ & _ & Hn & Hd & Hf) Hshort. unfold frames_within.
  apply Z.min_l.
  apply Z.div_le_lower_bound; [lia |]. nia.
Qed.

Lemma frames_within_long (m : Media) (s : Z) :
  well_formed m -> 0 <= s -> s * rate_num m < frames m * rate_den m ->
  s * rate_num m <= frames_within s m * rate_den m < s * rate_num m + rate_den m.
Proof.
  intros (_ & _ & Hn & Hd & Hf) Hs Hlong. unfold frames_within.
  set (k := (s * rate_num m + rate_den m - 1) / rate_den m).
  pose proof (Z.div_mod (s * rate_num m + rate_den m - 1) (rate_den m) ltac:(lia)) as Hdm.
  pose proof (Z.mod_pos_bound (s * rate_num m + rate_den m - 1) (rate_den m) Hd) as Hm.
  fold k in Hdm.
  destruct (Z.min_spec (frames m) k) as [[Hlt ->] | [Hge ->]]; nia.
Qed.

Lemma duration_le (m : Media) (s : Z) :
  well_formed m -> (duration m <= inject_Z s)%Q <-> frames m * rate_den m <= s * rate_num m.
Proof.
  intros (_ & _ & Hn & _). unfold Qle, duration. simpl. rewrite Z2Pos.id by lia. lia.
Qed.

Lemma duration_gt (m : Media) (s : Z) :
  well_formed m -> (inject_Z s < duration m)%Q <-> s * rate_num m < frames m * rate_den m.
Proof.
  intros (_ & _ & Hn & _). unfold Qlt, duration. simpl. rewrite Z2Pos.id by lia. lia.
Qed.

Lemma duration_ge (m : Media) (s : Z) :
  well_formed m -> (inject_Z s <= duration m)%Q <-> s * rate_num m <= frames m * rate_den m.
Proof.
  intros (_ & _ & Hn & _). unfold Qle, duration. simpl. rewrite Z2Pos.id by lia. lia.
Qed.

Lemma duration_lt_plus_interval (m m0 : Media) (s : Z) :
  well_formed m -> rate_num m0 = rate_num m -> rate_den m0 = rate_den m ->
  (duration m < inject_Z s + frame_interval m0)%Q
  <-> frames m * rate_den m < s * rate_num m + rate_den m.
Proof.
  intros (_ & _ & Hn & _) Hnum Hden. unfold Qlt, Qplus, duration, frame_interval. simpl.
  rewrite Hnum, Hden. rewrite Pos2Z.inj_mul. rewrite !Z2Pos.id by lia. nia.
Qed.

Lemma trimmed_well_formed (m : Media) : well_formed m -> well_formed (trimmed m).
Proof.
  intros (Hw & Hh & Hn & Hd & Hf). unfold well_formed, trimmed, frames_within. simpl.
  repeat split; try lia.
  apply Z.min_glb; [lia |]. apply Z.div_pos; lia.
Qed.



End EngineFacts.



(** The encode command on a square and on a 9:16 picture, at 25 and 60
    frames per second. *)
Lemma encode_square_and_portrait :
  (exists files,
     Engine.exec Samples.engine_up Page.encodeArgs
       (Samples.holding_trimmed
          {| FFmpeg.width := 500; FFmpeg.height := 500;
             FFmpeg.rate_num := 25; FFmpeg.rate_den := 1; FFmpeg.frames := 250;
             FFmpeg.vcodec := "h264"; FFmpeg.acodec := "aac";
             FFmpeg.abitrate := 96000; FFmpeg.faststart := false |})
     = (Engine.Fulfilled 0, {| FFmpeg.loaded := true; FFmpeg.files := files |})
     /\ files !! "output.mp4"
        = Some (FFmpeg.Clip {| FFmpeg.width := 720; FFmpeg.height := 1280;
                               FFmpeg.rate_num := 30; FFmpeg.rate_den := 1;
                               FFmpeg.frames := 300;
                               FFmpeg.vcodec := "libx264"; FFmpeg.acodec := "aac";
                               FFmpeg.abitrate := 192000; FFmpeg.faststart := true |}))
  /\ (exists files,
        Engine.exec Samples.engine_up Page.encodeArgs
          (Samples.holding_trimmed
             {| FFmpeg.width := 360; FFmpeg.height := 640;
                FFmpeg.rate_num := 60; FFmpeg.rate_den := 1; FFmpeg.frames := 600;
                FFmpeg.vcodec := "h264"; FFmpeg.acodec := "aac";
                FFmpeg.abitrate := 96000; FFmpeg.faststart := false |})
        = (Engine.Fulfilled 0, {| FFmpeg.loaded := true; FFmpeg.files := files |})
        /\ files !! "output.mp4"
           = Some (FFmpeg.Clip {| FFmpeg.width := 720; FFmpeg.height := 1280;
                                  FFmpeg.rate_num := 30; FFmpeg.rate_den := 1;
                                  FFmpeg.frames := 300;
                                  FFmpeg.vcodec := "libx264"; FFmpeg.acodec := "aac";
                                  FFmpeg.abitrate := 192000; FFmpeg.faststart := true |})).
Proof.
  split; eexists; (split; [vm_compute; reflexivity | vm_compute; reflexivity]).
Qed.

(** The trim command on a clip shorter than the limit: all of it is
    kept. *)
Lemma trim_keeps_short_clip :
  exists files,
    Engine.exec Samples.engine_up Page.trimArgs (Samples.ingested Samples.narrow)
    = (Engine.Fulfilled 0, {| FFmpeg.loaded := true; FFmpeg.files := files |})
    /\ files !! "trimmed.mp4"
       = Some (FFmpeg.Clip {| FFmpeg.width := 400; FFmpeg.height := 1000;
                              FFmpeg.rate_num := 30; FFmpeg.rate_den := 1;
                              FFmpeg.frames := 300;
                              FFmpeg.vcodec := "h264"; FFmpeg.acodec := "aac";
                              FFmpeg.abitrate := 96000; FFmpeg.faststart := false |}).
Proof. eexists. split; vm_compute; reflexivity. Qed.


(** ** The page component *)

Section PageFacts.

Import Engine Page Hoare.

Context {St Data : Type}.
Variable engine : API St Data.
Variable fetch : FetchRequest -> Outcome (FetchResponse Data).

Abbreviation World := (World St Data).

(** *** Rules for triples *)

Lemma triple_ret {A} (P : World -> Prop) (a : A) Q R :
  (forall w, P w -> Q a w) -> triple P (ret a) Q R.
Proof. intros H w Hw. simpl. auto. Qed.

Lemma triple_bind {A B} (P : World -> Prop) (c : M A) (k : A -> M B) Q Q' R :
  triple P c Q R -> (forall a, triple (Q a) (k a) Q' R) -> triple P (bind c k) Q' R.
Proof.
  intros Hc Hk w Hw. unfold bind. specialize (Hc w Hw).
  destruct (c w) as [[a | e] w']; [apply Hk; assumption | assumption].
Qed.

Lemma triple_throw {A} (P : World -> Prop) (e : string) (Q : A -> World -> Prop) R :
  (forall w, P w -> R w) -> triple P (throw e) Q R.
Proof. intros H w Hw. simpl. auto. Qed.

Lemma triple_modify (P : World -> Prop) (f : World -> World) Q R :
  (forall w, P w -> Q tt (f w)) -> triple P (modify f) Q R.
Proof. intros H w Hw. simpl. auto. Qed.

Lemma triple_await {A} (P : World -> Prop) (c : M A) Q R :
  triple P c (fun a w => Q a (render w)) (fun w => R (render w)) ->
  triple P (await c) Q R.
Proof.
  intros Hc w Hw. unfold await. specialize (Hc w Hw).
  destruct (c w) as [[a | e] w']; assumption.
Qed.

Lemma triple_lift {A} (P : World -> Prop) (o : Outcome A) Q R :
  (forall w, P w -> match o with Fulfilled a => Q a w | Rejected _ => R w end) ->
  triple P (lift o) Q R.
Proof. intros H w Hw. unfold lift. specialize (H w Hw). destruct o; assumption. Qed.

Lemma triple_conseq {A} (P P' : World -> Prop) (c : M A)
    (Q Q' : A -> World -> Prop) (R R' : World -> Prop) :
  triple P' c Q' R' ->
  (forall w, P w -> P' w) -> (forall a w, Q' a w -> Q a w) -> (forall w, R' w -> R w) ->
  triple P c Q R.
Proof.
  intros Hc HP HQ HR w Hw. specialize (Hc w (HP w Hw)).
  destruct (c w) as [[a | e] w']; auto.
Qed.

Lemma triple_on_engine {A} (P : World -> Prop) (op : St -> Outcome A * St)
    (ev : Outcome A -> Event Data) Q R :
  (forall w, P w -> ffmpegRef w = None -> R w) ->
  (forall w st, P w -> ffmpegRef w = Some st ->
     match op st with
     | (Fulfilled a, st') => Q a (with_log (ev (Fulfilled a)) (with_ref (Some st') w))
     | (Rejected e, st') => R (with_log (ev (Rejected e)) (with_ref (Some st') w))
     end) ->
  triple P (on_engine op ev) Q R.
Proof.
  intros Hnone Hsome w Hw. unfold on_engine.
  destruct (ffmpegRef w) as [st |] eqn:Href.
  - specialize (Hsome w st Hw Href). destruct (op st) as [[a | e] st']; assumption.
  - apply Hnone; assumption.
Qed.

(** *** What a render changes *)

Lemma ui_render (w : World) : ui (render w) = ui w.
Proof.
  unfold render, cleanup, revoke_if_set.
  destruct (deps_changed _ _); [| reflexivity].
  destruct (originalVideoUrl (rendered w)), (trimmedVideoUrl (rendered w)); reflexivity.
Qed.

Lemma rendered_render (w : World) : rendered (render w) = ui w.
Proof.
  unfold render, cleanup, revoke_if_set.
  destruct (deps_changed _ _); [| reflexivity].
  destruct (originalVideoUrl (rendered w)), (trimmedVideoUrl (rendered w)); reflexivity.
Qed.

Lemma ffmpegRef_render (w : World) : ffmpegRef (render w) = ffmpegRef w.
Proof.
  unfold render, cleanup, revoke_if_set.
  destruct (deps_changed _ _); [| reflexivity].
  destruct (originalVideoUrl (rendered w)), (trimmedVideoUrl (rendered w)); reflexivity.
Qed.

Lemma nextURL_render (w : World) : nextURL (render w) = nextURL w.
Proof.
  unfold render, cleanup, revoke_if_set.
  destruct (deps_changed _ _); [| reflexivity].
  destruct (originalVideoUrl (rendered w)), (trimmedVideoUrl (rendered w)); reflexivity.
Qed.

Lemma objectURLs_revoke_if_set (url : option URL) (w : World) (u : URL) :
  url <> Some u -> objectURLs (revoke_if_set url w) !! u = objectURLs w !! u.
Proof.
  intros Hne. destruct url as [v |]; simpl; [| reflexivity].
  apply lookup_delete_ne. congruence.
Qed.

(** A render leaves the URL [u] alone unless the previous render held it
    and the state has since moved on. *)
Lemma objectURLs_render (w : World) (u : URL) :
  trimmedVideoUrl (rendered w) <> Some u ->
  (originalVideoUrl (rendered w) = Some u ->
     originalVideoUrl (ui w) = Some u /\ trimmedVideoUrl (ui w) = trimmedVideoUrl (rendered w)) ->
  objectURLs (render w) !! u = objectURLs w !! u.
Proof.
  intros Ht Ho. unfold render, deps_changed.
  case_bool_decide as Hdeps; simpl; [reflexivity |].
  unfold cleanup. rewrite !objectURLs_revoke_if_set; auto.
  intros Heq. destruct (Ho Heq) as [H1 H2]. apply Hdeps. split; congruence.
Qed.

(** *** Stable properties *)

Section Stable.

Variable I : World -> Prop.
Hypothesis I_stable : stable I.

Lemma stable_status v R : triple I (setStatus v) (fun _ => I) R.
Proof.
  apply triple_modify. intros w Hw.
  apply I_stable; [intros s; split; reflexivity | assumption].
Qed.

Lemma stable_error v R : triple I (setError v) (fun _ => I) R.
Proof.
  apply triple_modify. intros w Hw.
  apply I_stable; [intros s; split; reflexivity | assumption].
Qed.

Lemma stable_engine {A} (op : St -> Outcome A * St) (ev : Outcome A -> Event Data) :
  ref_stable I -> triple I (await (on_engine op ev)) (fun _ => I) I.
Proof.
  intros Href. pose proof I_stable as (_ & Hlog & Hrender).
  apply triple_await, triple_on_engine.
  - intros w Hw _. auto.
  - intros w st Hw _. destruct (op st) as [[a | e] st']; auto.
Qed.

Lemma stable_transcode_stages (videoData : Data) :
  ref_stable I -> triple I (transcode_stages engine videoData) (fun _ => I) I.
Proof.
  intros Href. unfold transcode_stages.
  eapply triple_bind; [apply stable_status |]. intros ?.
  eapply triple_bind; [apply stable_engine, Href |]. intros ?.
  eapply triple_bind; [apply stable_engine, Href |]. intros ?.
  eapply triple_bind; [apply stable_engine, Href |]. intros ?.
  apply triple_ret. auto.
Qed.

(** The [catch] block records the failure and changes nothing else that a
    stable property can see. *)
Lemma stable_report_failure (e : string) R :
  triple I (report_failure e)
         (fun _ w => I w /\ error (ui w) = Some "Failed to process video"
                     /\ status (ui w) = None) R.
Proof.
  intros w Hw. simpl. split; [| split; reflexivity].
  apply I_stable; [intros s; split; reflexivity |].
  apply I_stable; [intros s; split; reflexivity | assumption].
Qed.

Section Download.

Variables (videoId : string) (resp : FetchResponse Data) (videoData : Data).
Hypothesis fetch_ok : fetch (process_video_request videoId) = Fulfilled resp.
Hypothesis resp_ok : ok resp = true.
Hypothesis body_ok : arrayBuffer resp = Fulfilled videoData.

Lemma download_fulfilled (w : World) :
  download fetch videoId w =
    (Fulfilled videoData,
     render (render (with_log (EvFetch (process_video_request videoId) (Some true))
                              (snd (setStatus (Some "Downloading video...") w))))).
Proof.
  unfold download, bind, await, do_fetch, lift. simpl.
  rewrite fetch_ok. simpl. rewrite resp_ok. simpl. rewrite body_ok. reflexivity.
Qed.

Lemma stable_download R :
  triple I (download fetch videoId) (fun d w => d = videoData /\ I w) R.
Proof.
  intros w Hw. rewrite download_fulfilled. split; [reflexivity |].
  pose proof I_stable as (Hui & Hlog & Hrender).
  apply Hrender, Hrender, Hlog. simpl.
  apply Hui; [intros s; split; reflexivity | assumption].
Qed.

End Download.

End Stable.

Lemma before_original_stable n t0 : stable (@before_original St Data n t0).
Proof.
  unfold stable, before_original, issued_below.
  split; [| split].
  - intros w f Hf (Hn & Ht & Hui & Hr). simpl. destruct (Hf (ui w)) as [Ho Ht'].
    rewrite Ht', Ho. auto.
  - intros w e H. exact H.
  - intros w (Hn & Ht & Hui & Hr). rewrite nextURL_render, ui_render, rendered_render.
    auto.
Qed.

Lemma original_shown_stable u blob t0 : stable (@original_shown St Data u blob t0).
Proof.
  unfold stable, original_shown.
  split; [| split].
  - intros w f Hf H. simpl. destruct (Hf (ui w)) as [Ho Ht'].
    rewrite Ht', Ho. exact H.
  - intros w e H. exact H.
  - intros w (Ho & Ht & Hl & Hrt & Hro & Hne).
    rewrite ui_render, rendered_render.
    split; [assumption |]. split; [assumption |]. split.
    + rewrite objectURLs_render; auto.
      intros Heq. split; [assumption |]. rewrite (Hro Heq). assumption.
    + split; [congruence |]. split; [auto | assumption].
Qed.

Lemma original_shown_ref_stable u blob t0 : ref_stable (@original_shown St Data u blob t0).
Proof. intros w r H. exact H. Qed.

(** *** The original video and a failing stage *)

Lemma show_original_shown (closure : State) (videoData : Data) n t0 R :
  issued_below n closure ->
  triple (@before_original St Data n t0) (show_original closure videoData)
         (fun _ => original_shown n {| blob_part := videoData; blob_type := "video/mp4" |} t0) R.
Proof.
  intros [Hco Hct] w (Hn & Ht & [Huo Hut] & [Hro Hrt]).
  unfold show_original, bind, modify, createObjectURL, setOriginalVideoUrl. simpl.
  assert (Hnext : nextURL (revoke_if_set (originalVideoUrl closure) w) = n).
  { destruct (originalVideoUrl closure); simpl; assumption. }
  assert (Hui : ui (revoke_if_set (originalVideoUrl closure) w) = ui w).
  { destruct (originalVideoUrl closure); reflexivity. }
  assert (Hren : rendered (revoke_if_set (originalVideoUrl closure) w) = rendered w).
  { destruct (originalVideoUrl closure); reflexivity. }
  unfold original_shown. simpl. rewrite Hnext, Hui, Hren.
  split; [reflexivity |]. split; [assumption |]. split; [apply lookup_insert_eq |].
  split; [intros H; apply Hrt in H; lia |].
  split; [intros H; apply Hro in H; lia |].
  rewrite <- Ht. intros H. apply Hut in H. lia.
Qed.

Lemma show_result_keeps_original (closure : State) u blob t0 :
  trimmedVideoUrl closure <> Some u ->
  triple (original_shown u blob t0) (show_result engine closure)
         (fun _ _ => True) (original_shown u blob t0).
Proof.
  intros Hc. unfold show_result.
  eapply triple_bind with (Q := fun _ => original_shown u blob t0).
  - apply triple_modify. intros w (Ho & Ht & Hl & Hrest).
    unfold original_shown.
    assert (Hui : ui (revoke_if_set (trimmedVideoUrl closure) w) = ui w).
    { destruct (trimmedVideoUrl closure); reflexivity. }
    assert (Hren : rendered (revoke_if_set (trimmedVideoUrl closure) w) = rendered w).
    { destruct (trimmedVideoUrl closure); reflexivity. }
    rewrite Hui, Hren, objectURLs_revoke_if_set by assumption. auto.
  - intros ?. eapply triple_bind.
    + apply (stable_engine _ (original_shown_stable u blob t0)),
            original_shown_ref_stable.
    + intros data w Hw. simpl. exact I.
Qed.

Section Job.

Variables (videoId : string) (resp : FetchResponse Data) (videoData : Data).
Hypothesis fetch_ok : fetch (process_video_request videoId) = Fulfilled resp.
Hypothesis resp_ok : ok resp = true.
Hypothesis body_ok : arrayBuffer resp = Fulfilled videoData.

(** Once the download has succeeded, a job that throws leaves the
    original shown. *)
Lemma job_keeps_original (closure : State) n t0 :
  issued_below n closure ->
  triple (before_original n t0) (job engine fetch closure videoId)
         (fun _ _ => True)
         (original_shown n {| blob_part := videoData; blob_type := "video/mp4" |} t0).
Proof.
  intros Hc. unfold job.
  pose proof (before_original_stable n t0) as HF.
  pose proof (original_shown_stable n
                {| blob_part := videoData; blob_type := "video/mp4" |} t0) as HJ.
  eapply triple_bind; [apply (stable_status _ HF) |]. intros ?.
  eapply triple_bind; [apply (stable_error _ HF) |]. intros ?.
  eapply triple_bind;
    [apply (stable_download _ HF videoId resp videoData fetch_ok resp_ok body_ok) |].
  intros d. cbv beta.
  intros w [-> Hw]. revert w Hw.
  change (triple (before_original n t0)
            (bind (show_original closure videoData)
               (fun _ => bind (transcode_stages engine videoData)
                              (fun _ => show_result engine closure)))
            (fun _ _ => True)
            (original_shown n {| blob_part := videoData; blob_type := "video/mp4" |} t0)).
  eapply triple_bind; [apply show_original_shown; assumption |]. intros ?.
  eapply triple_bind;
    [apply (stable_transcode_stages _ HJ), original_shown_ref_stable |]. intros ?.
  apply show_result_keeps_original.
  destruct Hc as [_ Hct]. intros H. apply Hct in H. lia.
Qed.


End Job.

End PageFacts.

(** *** The URLs the component holds *)

Section UrlsIssued.

Import Engine Page Hoare.

Context {St Data : Type}.
Variable engine : API St Data.
Variable fetch : FetchRequest -> Outcome (FetchResponse Data).
Variable toBlobURL : string -> string -> Outcome string.

Abbreviation World := (World St Data).

Lemma urls_issued_stable : stable (@urls_issued St Data).
Proof.
  unfold stable, urls_issued, issued_below. split; [| split].
  - intros w f Hf H. simpl. destruct (Hf (ui w)) as [Ho Ht]. rewrite Ho, Ht. exact H.
  - intros w e H. exact H.
  - intros w [Hui Hr]. rewrite nextURL_render, ui_render, rendered_render. auto.
Qed.

Lemma urls_issued_ref_stable : ref_stable (@urls_issued St Data).
Proof. intros w r H. exact H. Qed.

Lemma urls_issued_revoke_if_set (url : option URL) (w : World) :
  urls_issued w -> urls_issued (revoke_if_set url w).
Proof. destruct url; auto. Qed.

Lemma issued_below_S n s : issued_below n s -> issued_below (S n) s.
Proof. intros [Ho Ht]. split; intros u H; [apply Ho in H | apply Ht in H]; lia. Qed.

(** A download keeps every stable property, whether it returns or throws. *)
Lemma stable_download_any (I : World -> Prop) videoId :
  stable I -> triple I (download fetch videoId) (fun _ => I) I.
Proof.
  intros HI. pose proof HI as (Hui & Hlog & Hrender). unfold download.
  eapply triple_bind; [apply (stable_status _ HI) |]. intros ?.
  eapply triple_bind with (Q := fun _ => I).
  { apply triple_await. intros w Hw. unfold do_fetch. destruct (fetch _); auto. }
  intros response.
  eapply triple_bind with (Q := fun _ => I).
  { destruct (negb (ok response)).
    - eapply triple_bind with (Q := fun _ => I).
      + apply triple_await, triple_lift. intros w Hw. destruct (json response); auto.
      + intros err. unfold throw_download_error.
        destruct (JS.get_prop err "error"); apply triple_throw; auto.
    - apply triple_ret. auto. }
  intros ?. apply triple_await, triple_lift. intros w Hw.
  destruct (arrayBuffer response); auto.
Qed.

Lemma urls_issued_show_original closure d R :
  triple (@urls_issued St Data) (show_original closure d) (fun _ => urls_issued) R.
Proof.
  intros w Hw. unfold show_original, bind, modify, createObjectURL, setOriginalVideoUrl.
  simpl. apply (urls_issued_revoke_if_set (originalVideoUrl closure)) in Hw.
  destruct Hw as [[Ho Ht] Hr]. unfold urls_issued. simpl. split.
  - split; simpl; intros u H; [inversion H; lia | apply Ht in H; lia].
  - apply issued_below_S. exact Hr.
Qed.

Lemma urls_issued_show_result closure :
  triple (@urls_issued St Data) (show_result engine closure)
         (fun _ => urls_issued) urls_issued.
Proof.
  unfold show_result.
  eapply triple_bind with (Q := fun _ => urls_issued).
  { apply triple_modify. intros w Hw. apply urls_issued_revoke_if_set. exact Hw. }
  intros ?. eapply triple_bind.
  { apply (stable_engine _ urls_issued_stable), urls_issued_ref_stable. }
  intros data w [[Ho Ht] Hr].
  unfold bind, createObjectURL, setTrimmedVideoUrl, setStatus, modify. simpl.
  unfold urls_issued. simpl. split.
  - split; simpl; intros u H; [apply Ho in H; lia | inversion H; lia].
  - apply issued_below_S. exact Hr.
Qed.

(** It holds when the component mounts ... *)
Lemma urls_issued_without_urls (w : World) :
  originalVideoUrl (ui w) = None -> trimmedVideoUrl (ui w) = None ->
  originalVideoUrl (rendered w) = None -> trimmedVideoUrl (rendered w) = None ->
  urls_issued w.
Proof.
  intros H1 H2 H3 H4. unfold urls_issued, issued_below.
  rewrite H1, H2, H3, H4. repeat split; intros u H; discriminate.
Qed.

(** ... and it is kept by the component's actions: every URL held after a
    [processVideo] or a [loadFFmpeg] has been handed out. *)
Lemma urls_issued_processVideo (video : Search.YouTubeVideoItem) (w : World) :
  urls_issued w -> urls_issued (run (processVideo engine fetch video) w).
Proof.
  intros Hw. pose proof (@urls_issued_stable) as HS. pose proof HS as (_ & _ & Hrender).
  unfold run. apply Hrender. unfold processVideo.
  destruct (ffmpegRef w); [| exact Hw].
  destruct (videoId_of video) as [videoId |]; [| exact Hw].
  destruct (String.eqb videoId EmptyString); [exact Hw |].
  assert (Hjob : triple urls_issued (job engine fetch (rendered w) videoId)
                        (fun _ => urls_issued) urls_issued).
  { unfold job.
    eapply triple_bind; [apply (stable_status _ HS) |]. intros ?.
    eapply triple_bind; [apply (stable_error _ HS) |]. intros ?.
    eapply triple_bind; [apply (stable_download_any _ videoId HS) |]. intros d.
    eapply triple_bind; [apply urls_issued_show_original |]. intros ?.
    eapply triple_bind;
      [apply (stable_transcode_stages engine _ HS), urls_issued_ref_stable |]. intros ?.
    apply urls_issued_show_result. }
  specialize (Hjob w Hw). unfold try_catch.
  destruct (job engine fetch (rendered w) videoId w) as [[[] | e] wj]; [exact Hjob |].
  pose proof (stable_report_failure _ HS e (fun _ => False) wj Hjob) as Hh.
  destruct (report_failure e wj) as [[[] | e'] wh]; [| contradiction].
  apply Hh.
Qed.

Lemma urls_issued_loadFFmpeg (w : World) :
  urls_issued w -> urls_issued (run (loadFFmpeg engine toBlobURL) w).
Proof.
  intros Hw. pose proof (@urls_issued_stable) as HS. pose proof HS as (Hui & Hlog & Hrender).
  unfold run. apply Hrender.
  assert (Hbody : triple urls_issued (load_engine engine toBlobURL)
                         (fun _ => urls_issued) urls_issued).
  { unfold load_engine.
    eapply triple_bind; [apply (stable_status _ HS) |]. intros ?.
    eapply triple_bind; [apply (stable_error _ HS) |]. intros ?.
    eapply triple_bind with (Q := fun _ => urls_issued).
    { apply triple_modify. intros w0 H0. apply urls_issued_ref_stable. exact H0. }
    intros ?.
    eapply triple_bind with (Q := fun _ => urls_issued).
    { apply triple_await, triple_lift. intros w0 H0. destruct (toBlobURL _ _); auto. }
    intros core.
    eapply triple_bind with (Q := fun _ => urls_issued).
    { apply triple_await, triple_lift. intros w0 H0. destruct (toBlobURL _ _); auto. }
    intros wasm.
    eapply triple_bind.
    { apply (stable_engine _ HS), urls_issued_ref_stable. }
    intros ?. apply (stable_status _ HS). }
  specialize (Hbody w Hw). unfold loadFFmpeg, try_catch.
  destruct (load_engine engine toBlobURL w) as [[[] | e] wj]; [exact Hbody |].
  simpl. apply Hui; [intros s; split; reflexivity | exact Hbody].
Qed.

End UrlsIssued.


(** *** The order of the engine calls *)

Section CallOrder.

Import Engine Page Hoare.

Context {St Data : Type}.
Variable engine : API St Data.
Variable fetch : FetchRequest -> Outcome (FetchResponse Data).
Variable base : list (Event Data).
Variable t0 : option URL.

Abbreviation World := (World St Data).
Abbreviation called := (@called St Data base t0).

Lemma stage_events_app (l l' : list (Event Data)) :
  stage_events (l ++ l') = (stage_events l ++ stage_events l')%list.
Proof. apply List.filter_app. Qed.

Lemma log_revoke_if_set (url : option URL) (w : World) :
  stage_events (log (revoke_if_set url w)) = stage_events (log w).
Proof.
  destruct url; simpl; [| reflexivity].
  rewrite stage_events_app. simpl. apply app_nil_r.
Qed.

Lemma stage_events_render (w : World) : stage_events (log (render w)) = stage_events (log w).
Proof.
  unfold render. destruct (deps_changed _ _); simpl; [| reflexivity].
  unfold cleanup. rewrite !log_revoke_if_set. reflexivity.
Qed.

Lemma called_render l w : called l w -> called l (render w).
Proof.
  intros (Hl & Ht & Hr). unfold Hoare.called.
  rewrite stage_events_render, ui_render, ffmpegRef_render. auto.
Qed.

Lemma called_ui l w f :
  (forall s, trimmedVideoUrl (f s) = trimmedVideoUrl s) -> called l w -> called l (with_ui f w).
Proof. intros Hf (Hl & Ht & Hr). unfold Hoare.called. simpl. rewrite Hf. auto. Qed.

Lemma called_other l w e :
  is_stage_event e = false -> called l w -> called l (with_log e w).
Proof.
  intros He (Hl & Ht & Hr). unfold Hoare.called. simpl.
  rewrite stage_events_app. simpl. rewrite He, app_nil_r. auto.
Qed.

Lemma called_stage l w e st :
  is_stage_event e = true -> called l w ->
  called (l ++ [e]) (with_log e (with_ref (Some st) w)).
Proof.
  intros He (Hl & Ht & Hr). unfold Hoare.called. simpl.
  rewrite stage_events_app. simpl. rewrite He, Hl, app_assoc. eauto.
Qed.

Lemma called_revoke_if_set l w url : called l w -> called l (revoke_if_set url w).
Proof.
  intros (Hl & Ht & Hr). unfold Hoare.called. rewrite log_revoke_if_set.
  destruct url; simpl; auto.
Qed.

Lemma called_status l v R : triple (called l) (setStatus v) (fun _ => called l) R.
Proof. apply triple_modify. intros w Hw. apply called_ui; auto. Qed.

Lemma called_error l v R : triple (called l) (setError v) (fun _ => called l) R.
Proof. apply triple_modify. intros w Hw. apply called_ui; auto. Qed.

(** The download makes no engine call, whether it returns or throws. *)
Lemma called_download l videoId :
  triple (called l) (download fetch videoId) (fun _ => called l) (called l).
Proof.
  unfold download.
  eapply triple_bind; [apply called_status |]. intros ?.
  eapply triple_bind with (Q := fun _ => called l).
  { apply triple_await. intros w Hw. unfold do_fetch.
    destruct (fetch _); apply called_render, called_other; auto. }
  intros response.
  eapply triple_bind with (Q := fun _ => called l).
  { destruct (negb (ok response)).
    - eapply triple_bind with (Q := fun _ => called l).
      + apply triple_await, triple_lift. intros w Hw.
        destruct (json response); apply called_render; assumption.
      + intros err. unfold throw_download_error.
        destruct (JS.get_prop err "error"); apply triple_throw; auto.
    - apply triple_ret. auto. }
  intros ?. apply triple_await, triple_lift. intros w Hw.
  destruct (arrayBuffer response); apply called_render; assumption.
Qed.

Lemma called_show_original l closure d R :
  triple (called l) (show_original closure d) (fun _ => called l) R.
Proof.
  intros w Hw. unfold show_original, bind, modify, createObjectURL, setOriginalVideoUrl.
  simpl. apply (called_revoke_if_set l w (originalVideoUrl closure)) in Hw.
  destruct Hw as (Hl & Ht & Hr). unfold Hoare.called. simpl.
  rewrite stage_events_app. simpl. rewrite app_nil_r. auto.
Qed.

(** One awaited engine call: its event is appended, with its outcome. *)
Lemma called_engine {A} l (op : St -> Outcome A * St) (ev : Outcome A -> Event Data) :
  (forall r, is_stage_event (ev r) = true) ->
  triple (called l) (await (on_engine op ev))
         (fun a w => called (l ++ [ev (Fulfilled a)]) w)
         (fun w => exists e, called (l ++ [ev (Rejected e)]) w).
Proof.
  intros Hev. apply triple_await, triple_on_engine.
  - intros w (_ & _ & [st Hst]) Hnone. congruence.
  - intros w st Hw Hst. destruct (op st) as [[a | e] st'].
    + apply called_render, called_stage; auto.
    + exists e. apply called_render, called_stage; auto.
Qed.

Lemma called_transcode_stages d :
  triple (called []) (transcode_stages engine d)
    (fun _ w => exists c1 c2,
       called [EvWriteFile "input.mp4" d true; EvExec trimArgs (Some c1);
               EvExec encodeArgs (Some c2)] w)
    (fun w => exists l, called l w /\ stopped d l).
Proof.
  unfold transcode_stages.
  eapply triple_bind; [apply called_status |]. intros ?.
  eapply triple_bind
    with (Q := fun _ => called [EvWriteFile "input.mp4" d true]).
  { unfold ffmpeg_writeFile. eapply triple_conseq.
    - apply (called_engine []). intros r. reflexivity.
    - auto.
    - intros x w Hw. exact Hw.
    - intros w [e Hw]. eexists. split; [exact Hw |]. unfold stopped. simpl. auto. }
  intros ok1. cbv beta.
  eapply triple_bind
    with (Q := fun c1 => called [EvWriteFile "input.mp4" d true; EvExec trimArgs (Some c1)]).
  { unfold ffmpeg_exec. eapply triple_conseq.
    - apply (called_engine [EvWriteFile "input.mp4" d true]). intros r. reflexivity.
    - auto.
    - intros x w Hw. exact Hw.
    - intros w [e Hw]. eexists. split; [exact Hw |]. unfold stopped. simpl. auto. }
  intros c1. cbv beta.
  eapply triple_bind
    with (Q := fun c2 => called [EvWriteFile "input.mp4" d true; EvExec trimArgs (Some c1);
                                 EvExec encodeArgs (Some c2)]).
  { unfold ffmpeg_exec. eapply triple_conseq.
    - apply (called_engine [EvWriteFile "input.mp4" d true; EvExec trimArgs (Some c1)]).
      intros r. reflexivity.
    - auto.
    - intros x w Hw. exact Hw.
    - intros w [e Hw]. eexists. split; [exact Hw |]. unfold stopped. simpl. eauto 6. }
  intros c2. cbv beta. apply triple_ret. intros w Hw. exists c1, c2. exact Hw.
Qed.

(** The read-back comes after the two commands; only when it fulfils is
    the trimmed-video URL set and the status 'Ready!'. *)
Lemma called_show_result closure d c1 c2 :
  triple (called [EvWriteFile "input.mp4" d true; EvExec trimArgs (Some c1);
                  EvExec encodeArgs (Some c2)])
    (show_result engine closure)
    (fun _ w => stage_events (log w) = (base ++ completed d c1 c2)%list
                /\ status (ui w) = Some "Ready!")
    (fun w => exists l, called l w /\ stopped d l).
Proof.
  unfold show_result.
  eapply triple_bind
    with (Q := fun _ => called [EvWriteFile "input.mp4" d true; EvExec trimArgs (Some c1);
                                EvExec encodeArgs (Some c2)]).
  { apply triple_modify. intros w Hw. apply called_revoke_if_set. exact Hw. }
  intros ?.
  eapply triple_bind with (Q := fun _ => called (completed d c1 c2)).
  { unfold ffmpeg_readFile. eapply triple_conseq.
    - apply (called_engine [EvWriteFile "input.mp4" d true; EvExec trimArgs (Some c1);
                            EvExec encodeArgs (Some c2)]).
      intros r. reflexivity.
    - auto.
    - intros x w Hw. exact Hw.
    - intros w [e Hw]. eexists. split; [exact Hw |]. unfold stopped. simpl. eauto 8. }
  intros data w (Hl & Ht & Hr).
  unfold bind, createObjectURL, setTrimmedVideoUrl, setStatus, modify. simpl.
  rewrite stage_events_app. simpl. rewrite app_nil_r. auto.
Qed.

Lemma called_job closure videoId :
  triple (called []) (job engine fetch closure videoId)
    (fun _ w => exists d c1 c2,
       stage_events (log w) = (base ++ completed d c1 c2)%list
       /\ status (ui w) = Some "Ready!")
    (fun w => exists l, called l w /\ (l = [] \/ exists d, stopped d l)).
Proof.
  unfold job.
  eapply triple_bind; [apply called_status |]. intros ?.
  eapply triple_bind; [apply called_error |]. intros ?.
  eapply triple_bind with (Q := fun _ => called []).
  { eapply triple_conseq.
    - apply called_download.
    - intros w Hw. exact Hw.
    - intros x w Hw. exact Hw.
    - intros w Hw. eexists. split; [exact Hw | left; reflexivity]. }
  intros d. cbv beta.
  eapply triple_bind; [apply called_show_original |]. intros ?.
  eapply triple_bind.
  { eapply triple_conseq.
    - apply called_transcode_stages.
    - intros w Hw. exact Hw.
    - intros x w Hw. exact Hw.
    - intros w (l & Hl & Hs). exists l. eauto. }
  intros ?. cbv beta. intros w (c1 & c2 & Hw). revert w Hw.
  change (triple (called [EvWriteFile "input.mp4" d true; EvExec trimArgs (Some c1);
                          EvExec encodeArgs (Some c2)])
            (show_result engine closure)
            (fun _ w => exists d c1 c2,
               stage_events (log w) = (base ++ completed d c1 c2)%list
               /\ status (ui w) = Some "Ready!")
            (fun w => exists l, called l w /\ (l = [] \/ exists d, stopped d l))).
  eapply triple_conseq.
  - apply called_show_result.
  - intros w' Hw'. exact Hw'.
  - intros x w Hw. exists d, c1, c2. exact Hw.
  - intros w (l & Hl & Hs). exists l. eauto.
Qed.

End CallOrder.

Section ProcessVideoFacts.

Import Engine Page Hoare.

Context {St Data : Type}.
Variable engine : API St Data.
Variable fetch : FetchRequest -> Outcome (FetchResponse Data).

Abbreviation World := (World St Data).

(** X14.  The engine calls of one [processVideo], for every engine and
    every network: the ingest write, the trim command, the encode command
    and the read-back, in this order, each made only when the call before
    it was fulfilled.  The trimmed-video URL changes only when all four
    were fulfilled.  What a command resolves with plays no part. *)
Lemma processVideo_call_order (video : Search.YouTubeVideoItem) (w : World) :
  let w' := snd (processVideo engine fetch video w) in
  exists l,
    stage_events (log w') = (stage_events (log w) ++ l)%list
    /\ (((l = [] \/ exists d, stopped d l)
         /\ trimmedVideoUrl (ui w') = trimmedVideoUrl (ui w))
        \/ (exists d c1 c2, l = completed d c1 c2 /\ status (ui w') = Some "Ready!")).
Proof.
  cbv zeta. unfold processVideo.
  assert (Hnoop : exists l : list (Event Data),
             stage_events (log w) = (stage_events (log w) ++ l)%list
             /\ (((l = [] \/ exists d, stopped d l)
                  /\ trimmedVideoUrl (ui w) = trimmedVideoUrl (ui w))
                 \/ (exists d c1 c2, l = completed d c1 c2
                                     /\ status (ui w) = Some "Ready!"))).
  { exists nil. rewrite app_nil_r. auto. }
  destruct (ffmpegRef w) as [st |] eqn:Href; [| exact Hnoop].
  destruct (videoId_of video) as [videoId |]; [| exact Hnoop].
  destruct (String.eqb videoId EmptyString); [exact Hnoop |].
  clear Hnoop.
  pose proof (called_job engine fetch (stage_events (log w)) (trimmedVideoUrl (ui w))
                (rendered w) videoId w) as Hjob.
  unfold try_catch.
  destruct (job engine fetch (rendered w) videoId w) as [[[] | e] wj].
  - destruct Hjob as (d & c1 & c2 & Hl & Hs).
    + split; [rewrite app_nil_r; reflexivity |]. split; [reflexivity | eauto].
    + exists (completed d c1 c2). split; [exact Hl |]. right. eauto.
  - destruct Hjob as (l & (Hl & Ht & _) & Hshape).
    + split; [rewrite app_nil_r; reflexivity |]. split; [reflexivity | eauto].
    + exists l. split; [exact Hl |]. left. split; [exact Hshape | exact Ht].
Qed.

(** C10, as amended.  When [ffmpegRef.current] is null (no engine object
    has been created) or the item has no videoId (none, or the empty
    string), [processVideo] returns at once and leaves the world as it was:
    nothing is logged (no network request, no engine call) and no state
    cell changes. *)
Theorem processVideo_returns_at_guard (video : Search.YouTubeVideoItem) (w : World) :
  ffmpegRef w = None \/ videoId_of video = None \/ videoId_of video = Some EmptyString ->
  processVideo engine fetch video w = (Fulfilled tt, w)
  /\ log (snd (processVideo engine fetch video w)) = log w
  /\ ui (snd (processVideo engine fetch video w)) = ui w
  /\ objectURLs (snd (processVideo engine fetch video w)) = objectURLs w.
Proof.
  intros Hguard.
  assert (H : processVideo engine fetch video w = (Fulfilled tt, w)).
  { unfold processVideo.
    destruct (ffmpegRef w) as [st |]; [| reflexivity].
    destruct Hguard as [Hnone | [Hid | Hid]]; [discriminate | |]; rewrite Hid; reflexivity. }
  rewrite H. auto.
Qed.

End ProcessVideoFacts.

(** Witness of [processVideo_returns_at_guard]: before [loadFFmpeg] there
    is no engine object. *)
Lemma processVideo_returns_at_guard_witness :
  Page.processVideo Samples.engine_up Samples.acquire_stub (Samples.item "landscape")
    Samples.initial
  = (Engine.Fulfilled tt, Samples.initial).
Proof.
  apply (processVideo_returns_at_guard Samples.engine_up Samples.acquire_stub
           (Samples.item "landscape") Samples.initial).
  left. reflexivity.
Defined.

(** C10, as stated, fails once the engine object exists but has not
    finished loading.  [loadFFmpeg] stores the object in [ffmpegRef] before
    it awaits [load]; here [load] rejects, so the engine never finished
    loading, yet [processVideo] passes the guard: it issues the network
    request, shows the original and calls the engine, and ends with an
    error. *)
Lemma processVideo_runs_on_unloaded_engine :
  Page.ffmpegRef Samples.load_failed = Some {| FFmpeg.loaded := false; FFmpeg.files := ∅ |}
  /\ Page.error (Page.ui Samples.load_failed) = Some "Failed to load FFmpeg"
  /\ let w' := Page.run (Page.processVideo Samples.engine_down Samples.acquire_stub
                           (Samples.item "landscape")) Samples.load_failed in
     Samples.new_events Samples.load_failed w'
       = [Page.EvFetch (Page.process_video_request "landscape") (Some true);
          Page.EvCreateObjectURL O;
          Page.EvWriteFile "input.mp4" (FFmpeg.Clip Samples.landscape) false]
     /\ Page.originalVideoUrl (Page.ui w') = Some O
     /\ Page.status (Page.ui w') = None
     /\ Page.error (Page.ui w') = Some "Failed to process video".
Proof. vm_compute. repeat split; reflexivity. Qed.

(** C3: the failing input.  The job's bytes are unreadable.  The trim
    command resolves with exit status 1, and the encode command is run all
    the same.  On a fresh engine the job then fails at the read-back; on an
    engine that still holds the files of an earlier job, the encode command
    reads that job's 'trimmed.mp4', the read-back returns its result, and
    the job ends 'Ready!' showing the earlier job's video. *)
Lemma encode_runs_after_failed_trim :
  (let w' := Page.run (Page.processVideo Samples.engine_up Samples.acquire_stub
                         (Samples.item "junk")) Samples.ready in
   Hoare.stage_events (Samples.new_events Samples.ready w')
     = [Page.EvWriteFile "input.mp4" (FFmpeg.Junk EmptyString) true;
        Page.EvExec Page.trimArgs (Some 1);
        Page.EvExec Page.encodeArgs (Some 1);
        Page.EvReadFile "output.mp4" false]
   /\ Page.error (Page.ui w') = Some "Failed to process video")
  /\ (let w' := Page.run (Page.processVideo Samples.engine_up Samples.acquire_stub
                            (Samples.item "junk")) Samples.after_first_job in
      Hoare.stage_events (Samples.new_events Samples.after_first_job w')
        = [Page.EvWriteFile "input.mp4" (FFmpeg.Junk EmptyString) true;
           Page.EvExec Page.trimArgs (Some 1);
           Page.EvExec Page.encodeArgs (Some 0);
           Page.EvReadFile "output.mp4" true]
      /\ Page.status (Page.ui w') = Some "Ready!"
      /\ Page.error (Page.ui w') = None
      /\ exists u first,
           Page.trimmedVideoUrl (Page.ui w') = Some u
           /\ Page.objectURLs w' !! u = Some first
           /\ Page.trimmedVideoUrl (Page.ui Samples.after_first_job) = Some 1%nat
           /\ Page.blob_part first
              = FFmpeg.Clip {| FFmpeg.width := 720; FFmpeg.height := 1280;
                               FFmpeg.rate_num := 30; FFmpeg.rate_den := 1;
                               FFmpeg.frames := 900;
                               FFmpeg.vcodec := "libx264"; FFmpeg.acodec := "aac";
                               FFmpeg.abitrate := 192000; FFmpeg.faststart := true |}).
Proof.
  split.
  - vm_compute. split; reflexivity.
  - cbv zeta. split; [vm_compute; reflexivity |].
    split; [vm_compute; reflexivity |].
    split; [vm_compute; reflexivity |].
    exists 3%nat. eexists. split; [vm_compute; reflexivity |].
    split; [vm_compute; reflexivity |].
    split; vm_compute; reflexivity.
Qed.


(** *** Jobs that share the engine's storage *)

Section EngineState.

Import Engine Page Hoare.

Context {St Data : Type}.

Lemma engine_at_stable (st : St) : stable (@engine_at St Data st).
Proof.
  unfold stable, engine_at. split; [| split].
  - intros w f _ H. exact H.
  - intros w e H. exact H.
  - intros w H. rewrite ffmpegRef_render. exact H.
Qed.

(** An awaited call whose outcome on the current engine state is known. *)
Lemma engine_step {A} (st st' : St) (op : St -> Outcome A * St)
    (ev : Outcome A -> Event Data) (a : A) R :
  op st = (Fulfilled a, st') ->
  triple (engine_at st) (await (on_engine op ev))
         (fun x w => x = a /\ engine_at st' w) R.
Proof.
  intros Hop. apply triple_await, triple_on_engine.
  - intros w Hw Hnone. unfold engine_at in Hw. congruence.
  - intros w st0 Hw Hst. unfold engine_at in Hw.
    assert (st0 = st) by congruence. subst st0. rewrite Hop.
    split; [reflexivity |]. unfold engine_at. rewrite ffmpegRef_render. reflexivity.
Qed.

Lemma engine_at_revoke_if_set (st : St) (url : option URL) (w : World St Data) :
  engine_at st w -> engine_at st (revoke_if_set url w).
Proof. unfold engine_at. destruct url; simpl; auto. Qed.

Lemma engine_at_show_original (st : St) (closure : State) (d : Data) R :
  triple (engine_at st) (show_original closure d) (fun _ => engine_at st) R.
Proof.
  intros w Hw. unfold show_original, bind, modify, createObjectURL, setOriginalVideoUrl.
  simpl. unfold engine_at. simpl.
  apply (engine_at_revoke_if_set st (originalVideoUrl closure) w Hw).
Qed.

Lemma log_render_incl (w : World St Data) (e : Event Data) :
  In e (log w) -> In e (log (render w)).
Proof.
  intros Hin. unfold render, cleanup, revoke_if_set.
  destruct (deps_changed _ _); simpl; [| exact Hin].
  destruct (originalVideoUrl (rendered w)), (trimmedVideoUrl (rendered w)); simpl;
    repeat (apply in_or_app; left); exact Hin.
Qed.

(** For every engine: once the ingest write is fulfilled, the encode
    command is called whatever exit status the trim command resolves
    with. *)
Lemma encode_follows_any_exit_status (engine : API St Data) (d : Data)
    (w : World St Data) (st st1 st2 : St) (written : bool) (c1 : Z) :
  ffmpegRef w = Some st ->
  writeFile engine "input.mp4" d st = (Fulfilled written, st1) ->
  exec engine trimArgs st1 = (Fulfilled c1, st2) ->
  exists status,
    In (EvExec trimArgs (Some c1)) (log (snd (transcode_stages engine d w)))
    /\ In (EvExec encodeArgs status) (log (snd (transcode_stages engine d w))).
Proof.
  intros Href Hwrite Htrim.
  assert (H : triple (engine_at st) (transcode_stages engine d)
                (fun _ w' => exists status, In (EvExec trimArgs (Some c1)) (log w')
                                            /\ In (EvExec encodeArgs status) (log w'))
                (fun w' => exists status, In (EvExec trimArgs (Some c1)) (log w')
                                          /\ In (EvExec encodeArgs status) (log w'))).
  { unfold transcode_stages.
    eapply triple_bind; [apply (stable_status _ (engine_at_stable st)) |]. intros ?.
    eapply triple_bind.
    { unfold ffmpeg_writeFile. apply (engine_step st st1). exact Hwrite. }
    intros ?. cbv beta.
    eapply triple_bind
      with (Q := fun _ w' => engine_at st2 w' /\ In (EvExec trimArgs (Some c1)) (log w')).
    { unfold ffmpeg_exec. apply triple_await, triple_on_engine.
      - intros w0 [_ Hw0] Hnone. unfold engine_at in Hw0. congruence.
      - intros w0 st0 [_ Hw0] Hst0. unfold engine_at in Hw0.
        assert (st0 = st1) by congruence. subst st0. rewrite Htrim. split.
        + unfold engine_at. rewrite ffmpegRef_render. reflexivity.
        + apply log_render_incl. simpl. apply in_or_app. right. left. reflexivity. }
    intros ?. cbv beta.
    eapply triple_bind
      with (Q := fun _ w' => exists status, In (EvExec trimArgs (Some c1)) (log w')
                                            /\ In (EvExec encodeArgs status) (log w')).
    { unfold ffmpeg_exec. apply triple_await, triple_on_engine.
      - intros w0 [Hw0 _] Hnone. unfold engine_at in Hw0. congruence.
      - intros w0 st0 [_ Hin] _.
        destruct (exec engine encodeArgs st0) as [[c2 | e] st3].
        + exists (Some c2). split; apply log_render_incl; simpl; apply in_or_app;
            [left; exact Hin | right; left; reflexivity].
        + exists None. split; apply log_render_incl; simpl; apply in_or_app;
            [left; exact Hin | right; left; reflexivity]. }
    intros ?. apply triple_ret. auto. }
  specialize (H w Href).
  destruct (transcode_stages engine d w) as [[[] | e] w']; exact H.
Qed.

End EngineState.

Section SharedStorage.

Import Engine Page Hoare FFmpeg.

Variable can_load : LoadConfig -> bool.
Variable fetch : FetchRequest -> Outcome (FetchResponse File).

Variables (videoId : string) (resp : FetchResponse File) (m out : Media) (st : St).
Hypothesis fetch_ok : fetch (process_video_request videoId) = Fulfilled resp.
Hypothesis resp_ok : ok resp = true.
Hypothesis body_ok : arrayBuffer resp = Fulfilled (Clip m).
Hypothesis st_loaded : loaded st = true.
Hypothesis encoded : transcode (ONoStdin :: OOverwrite :: encode_options) (trimmed m) = Some out.

Lemma stages_on_leftovers :
  triple (engine_at st) (transcode_stages (reference can_load) (Clip m))
         (fun _ => engine_at (after_encode m out st)) (fun _ => False).
Proof.
  unfold transcode_stages.
  eapply triple_bind; [apply (stable_status _ (engine_at_stable st)) |]. intros ?.
  eapply triple_bind.
  { unfold ffmpeg_writeFile. apply (engine_step st (after_ingest m st)).
    simpl. unfold ref_writeFile. rewrite st_loaded. reflexivity. }
  intros ?. cbv beta. eapply triple_bind.
  { eapply triple_conseq.
    - unfold ffmpeg_exec. apply (engine_step (after_ingest m st) (after_trim m st)).
      apply (exec_trim can_load (after_ingest m st) m);
        [reflexivity | apply lookup_insert_eq].
    - intros w [_ Hw]. exact Hw.
    - intros x w Hw. exact Hw.
    - intros w Hw. exact Hw. }
  intros ?. cbv beta. eapply triple_bind.
  { eapply triple_conseq.
    - unfold ffmpeg_exec. apply (engine_step (after_trim m st) (after_encode m out st)).
      apply (exec_encode can_load (after_trim m st) (trimmed m) out);
        [reflexivity | apply lookup_insert_eq | exact encoded].
    - intros w [_ Hw]. exact Hw.
    - intros x w Hw. exact Hw.
    - intros w Hw. exact Hw. }
  intros ?. cbv beta. apply triple_ret. intros w [_ Hw]. exact Hw.
Qed.

Lemma result_on_leftovers (closure : State) :
  triple (engine_at (after_encode m out st)) (show_result (reference can_load) closure)
         (fun _ w => engine_at (after_encode m out st) w
                     /\ status (ui w) = Some "Ready!"
                     /\ exists u, trimmedVideoUrl (ui w) = Some u
                                  /\ objectURLs w !! u
                                     = Some {| blob_part := Clip out; blob_type := "video/mp4" |})
         (fun _ => False).
Proof.
  unfold show_result.
  eapply triple_bind with (Q := fun _ => engine_at (after_encode m out st)).
  { apply triple_modify. intros w Hw. apply engine_at_revoke_if_set. exact Hw. }
  intros ?. eapply triple_bind.
  { unfold ffmpeg_readFile.
    apply (engine_step (after_encode m out st) (after_encode m out st)).
    simpl. unfold ref_readFile. simpl. rewrite lookup_insert_eq. reflexivity. }
  intros data w [-> Hw].
  unfold bind, createObjectURL, setTrimmedVideoUrl, setStatus, modify. simpl.
  split; [exact Hw |]. split; [reflexivity |].
  eexists. split; [reflexivity |]. apply lookup_insert_eq.
Qed.

Lemma job_on_leftovers (closure : State) :
  triple (engine_at st) (job (reference can_load) fetch closure videoId)
         (fun _ w => engine_at (after_encode m out st) w
                     /\ status (ui w) = Some "Ready!"
                     /\ exists u, trimmedVideoUrl (ui w) = Some u
                                  /\ objectURLs w !! u
                                     = Some {| blob_part := Clip out; blob_type := "video/mp4" |})
         (fun _ => False).
Proof.
  unfold job.
  pose proof (engine_at_stable (Data := File) st) as HS.
  eapply triple_bind; [apply (stable_status _ HS) |]. intros ?.
  eapply triple_bind; [apply (stable_error _ HS) |]. intros ?.
  eapply triple_bind;
    [apply (stable_download fetch _ HS videoId resp (Clip m) fetch_ok resp_ok body_ok) |].
  intros d. cbv beta. intros w [-> Hw]. revert w Hw.
  change (triple (engine_at st)
            (bind (show_original closure (Clip m))
               (fun _ => bind (transcode_stages (reference can_load) (Clip m))
                              (fun _ => show_result (reference can_load) closure)))
            (fun _ w => engine_at (after_encode m out st) w
                        /\ status (ui w) = Some "Ready!"
                        /\ exists u, trimmedVideoUrl (ui w) = Some u
                                     /\ objectURLs w !! u
                                        = Some {| blob_part := Clip out;
                                                  blob_type := "video/mp4" |})
            (fun _ => False)).
  eapply triple_bind; [apply engine_at_show_original |]. intros ?.
  eapply triple_bind; [apply stages_on_leftovers |]. intros ?.
  apply result_on_leftovers.
Qed.

End SharedStorage.



(** ** Search route: sample runs *)


(** The ten are a sample, not the head of the provider's list. *)
Lemma GET_sample_is_not_the_prefix :
  fst (Search.GET (Samples.provider_stub Samples.fifty) Samples.coin Samples.env_with_key
         (Samples.request_with [("q", "trending")]))
  <> {| Search.status := 200; Search.body := Search.Videos (take 10 Samples.fifty) |}.
Proof. vm_compute. discriminate. Qed.

(** Witness of [GET_without_key]. *)
Lemma GET_without_key_witness :
  Search.GET (Samples.provider_stub Samples.fifty) Samples.coin
    {| Search.YOUTUBE_API_KEY := None |} (Samples.request_with [("q", "cats")])
  = ({| Search.status := 500;
        Search.body := Search.Failure "YouTube API Key is not configured on the server." None |},
     []).
Proof.
  apply (GET_without_key (Samples.provider_stub Samples.fifty) Samples.coin
           {| Search.YOUTUBE_API_KEY := None |} (Samples.request_with [("q", "cats")])).
  left. reflexivity.
Defined.

(** C8, as stated, fails: a request whose [q] is the empty string is not
    refused.  The provider is asked for 'trending' and the response is a
    success. *)
Lemma GET_empty_query_is_not_an_error :
  Search.searchParams_get "q" (Search.searchParams (Samples.request_with [("q", EmptyString)]))
  = Some EmptyString
  /\ Search.GET (Samples.provider_stub []) Samples.coin Samples.env_with_key
       (Samples.request_with [("q", EmptyString)])
     = ({| Search.status := 200; Search.body := Search.Videos [] |},
        [ {| Search.auth := "key"; Search.part := ["snippet"]; Search.q := "trending";
             Search.type := ["video"]; Search.maxResults := 50 |} ]).
Proof. split; reflexivity. Qed.

(** Witness of [GET_query_fallback]: an absent [q]. *)
Lemma GET_query_fallback_witness :
  Search.q (Search.search_call "key" (Samples.request_with [])) = "trending".
Proof.
  destruct (GET_query_fallback (Samples.provider_stub []) Samples.coin Samples.env_with_key
              (Samples.request_with []) "key" eq_refl) as [Habsent _].
  - discriminate.
  - apply Habsent. left. reflexivity.
Defined.

(** * Further properties of the routes and of the page *)

(** ** Search route: every response *)

Section SearchRouteFacts.

Import Search.

Variable search_list : SearchCall -> ApiError + option (list YouTubeVideoItem).
Variable random : nat -> Z.

Lemma str_or_nonempty (s : option string) (d : string) :
  d <> EmptyString -> JS.str_or s d <> EmptyString.
Proof.
  intros Hd. unfold JS.str_or. destruct s as [x |]; [| exact Hd].
  destruct (String.eqb_spec x EmptyString); assumption.
Qed.

Lemma error_message_nonempty (e : ApiError) : error_message e <> EmptyString.
Proof.
  unfold error_message. destruct (response_data_error e) as [m |].
  - apply str_or_nonempty. discriminate.
  - destruct (message e) as [m |]; [| discriminate].
    destruct (String.eqb_spec m EmptyString); [discriminate | assumption].
Qed.

(** X1.  Whatever the environment, the request and the provider do, the
    search route answers in one of two ways: with status 200 and at most
    ten videos, after exactly one provider call; or with status 500 and a
    message that is not empty, after at most one provider call, and the
    [error] detail, when the body has one, is not empty either.  Every
    provider call is made with the configured key, which is not empty, asks
    for 50 results of type 'video' with the part 'snippet', and carries a
    search term that is not empty. *)
Theorem GET_response_shape (env : Env) (request : Request) :
  let '(response, calls) := GET search_list random env request in
  ((status response = 200
    /\ (exists videos, body response = Videos videos /\ (length videos <= 10)%nat)
    /\ length calls = 1%nat)
   \/ (status response = 500
       /\ (exists msg detail, body response = Failure msg detail
                              /\ msg <> EmptyString /\ detail <> Some EmptyString)
       /\ (length calls <= 1)%nat))
  /\ (forall call, In call calls ->
        YOUTUBE_API_KEY env = Some (auth call) /\ auth call <> EmptyString
        /\ part call = ["snippet"] /\ type call = ["video"] /\ maxResults call = 50
        /\ q call <> EmptyString).
Proof.
  unfold GET. destruct (YOUTUBE_API_KEY env) as [apiKey |].
  - destruct (String.eqb_spec apiKey EmptyString) as [-> | Hne].
    + split; [right | intros call []].
      split; [reflexivity |]. split; [| simpl; lia].
      eexists _, _. split; [reflexivity |]. split; discriminate.
    + cbv zeta.
      destruct (search_list (search_call apiKey request)) as [e | items].
      * split.
        -- right. split; [reflexivity |]. split; [| simpl; lia].
           eexists _, _. split; [reflexivity |]. split; [discriminate |].
           intros H. injection H as H. exact (error_message_nonempty e H).
        -- intros call [<- | []]. simpl. repeat split; auto.
           apply str_or_nonempty. discriminate.
      * split.
        -- left. split; [reflexivity |]. split; [| reflexivity].
           eexists. split; [reflexivity |]. rewrite length_take. lia.
        -- intros call [<- | []]. simpl. repeat split; auto.
           apply str_or_nonempty. discriminate.
  - split; [right | intros call []].
    split; [reflexivity |]. split; [| simpl; lia].
    eexists _, _. split; [reflexivity |]. split; discriminate.
Qed.

(** X2.  When the provider answers with at most ten items, nothing is
    dropped: the response carries a rearrangement of all of them, for
    every random source.  A provider answer without an [items] field gives
    a success with an empty list. *)
Theorem GET_small_result_is_rearranged (env : Env) (request : Request) (apiKey : string)
    (items : option (list YouTubeVideoItem)) :
  YOUTUBE_API_KEY env = Some apiKey ->
  apiKey <> EmptyString ->
  search_list (search_call apiKey request) = inr items ->
  (length (items_or_empty items) <= 10)%nat ->
  exists videos,
    fst (GET search_list random env request) = {| status := 200; body := Videos videos |}
    /\ Permutation videos (items_or_empty items)
    /\ (items = None -> videos = []).
Proof.
  intros Hkey Hne Hlist Hlen.
  exists (shuffle random (items_or_empty items)).
  unfold GET. rewrite Hkey.
  destruct (String.eqb_spec apiKey EmptyString) as [| _]; [contradiction |].
  cbv zeta. rewrite Hlist. cbn [fst].
  rewrite take_ge by (rewrite shuffle_length; exact Hlen).
  split; [reflexivity |]. split; [apply shuffle_perm |].
  intros ->. reflexivity.
Qed.

End SearchRouteFacts.

(** ** Acquisition route: every response *)

Section AcquireRouteFacts.

Import JS Acquire.

Context {Stream : Type}.
Variable ytdl : YtdlCall -> option Stream.

(** X3.  Whatever the request body and the resolver do, the acquisition
    route answers in one of three ways: with status 200, the stream that
    the resolver returned for the one call made, and the content type
    'video/mp4'; with status 400 and [{error: 'Video ID is required'}],
    without a call; or with status 500 and
    [{error: 'Failed to process video'}], without a call or after one call
    in which the resolver threw.  Every call asks for quality '18' with the
    filter 'audioandvideo', for the watch URL of a truthy identifier. *)
Theorem POST_response_shape (parsed : option json) :
  let '(response, calls) := POST ytdl parsed in
  ((status response = 200
    /\ exists call stream, calls = [call] /\ ytdl call = Some stream
         /\ body response = BodyStream stream
         /\ In ("Content-Type", "video/mp4") (headers response))
   \/ (response = json_error "Video ID is required" 400 /\ calls = [])
   \/ (response = json_error "Failed to process video" 500
       /\ (calls = [] \/ exists call, calls = [call] /\ ytdl call = None)))
  /\ (forall call, In call calls ->
        ytdl_quality call = "18" /\ ytdl_filter call = "audioandvideo"
        /\ exists v, truthy (Some v) = true
                     /\ ytdl_url call = "https://www.youtube.com/watch?v=" ++ to_string v).
Proof.
  unfold POST. destruct parsed as [b |].
  - destruct (get_prop b "videoId") as [e | videoId].
    + split; [| intros call []]. right. right. auto.
    + destruct (truthy videoId) eqn:Hv; cbn [negb].
      * destruct videoId as [v |]; [| discriminate]. cbv zeta.
        destruct (ytdl _) as [stream |] eqn:Hy.
        -- split.
           ++ left. split; [reflexivity |]. eexists _, stream.
              split; [reflexivity |]. split; [exact Hy |]. split; [reflexivity |].
              left. reflexivity.
           ++ intros call [<- | []]. simpl. eauto.
        -- split.
           ++ right. right. split; [reflexivity |]. right.
              eexists. split; [reflexivity | exact Hy].
           ++ intros call [<- | []]. simpl. eauto.
      * split; [| intros call []]. right. left. auto.
  - split; [| intros call []]. right. right. auto.
Qed.

(** X4.  A request body that parses but is not an object never reaches
    the resolver.  The body [null] makes the destructuring throw, and the
    answer is the status 500 of the [catch] block; a boolean, a number, a
    string or an array has no [videoId], and the answer is the status 400
    of the guard. *)
Theorem POST_body_that_is_no_object (b : json) :
  (forall fields, b <> JObj fields) ->
  (b = JNull -> POST ytdl (Some b) = (json_error "Failed to process video" 500, []))
  /\ (b <> JNull -> POST ytdl (Some b) = (json_error "Video ID is required" 400, [])).
Proof.
  intros Hb. destruct b; split; intros H; try reflexivity; try discriminate;
    try contradiction.
  all: exfalso; eapply Hb; reflexivity.
Qed.

(** X5.  The page and the acquisition route fit together: for every
    identifier that passes the guard of [processVideo] (it is not empty),
    the body the page sends passes the guard of the route.  The resolver is
    called once, for the watch URL of exactly that identifier, and the
    answer is never the status 400. *)
Theorem page_request_reaches_resolver (videoId : string) :
  videoId <> EmptyString ->
  snd (POST ytdl (Some (Page.fetch_body (Page.process_video_request videoId))))
  = [ {| ytdl_url := "https://www.youtube.com/watch?v=" ++ videoId;
         ytdl_quality := "18"; ytdl_filter := "audioandvideo" |} ]
  /\ status (fst (POST ytdl (Some (Page.fetch_body (Page.process_video_request videoId)))))
     <> 400.
Proof.
  intros Hne. unfold POST. cbn [Page.process_video_request Page.fetch_body get_prop assoc].
  cbn [String.eqb Ascii.eqb Bool.eqb]. cbn [truthy].
  destruct (String.eqb_spec videoId EmptyString) as [| _]; [contradiction |].
  cbn [negb to_string]. cbv zeta. destruct (ytdl _); split; try reflexivity; discriminate.
Qed.

End AcquireRouteFacts.

(** ** The search term, from the page to the provider *)

Section QueryFacts.

Import URI.

Lemma decode_encoded (c : ascii) (rest : string) :
  percent_decode (encoded c ++ rest) = String c (percent_decode rest).
Proof. destruct c as [[] [] [] [] [] [] [] []]; reflexivity. Qed.

Lemma plus_to_space_encoded (c : ascii) (rest : string) :
  plus_to_space (encoded c ++ rest) = encoded c ++ plus_to_space rest.
Proof. destruct c as [[] [] [] [] [] [] [] []]; reflexivity. Qed.

Lemma split_on_other (sep c : ascii) (rest p : string) :
  Ascii.eqb c sep = false ->
  FFmpeg.split_on sep rest = [p] ->
  FFmpeg.split_on sep (String c rest) = [String c p].
Proof. intros Hc H. cbn [FFmpeg.split_on]. rewrite Hc, H. reflexivity. Qed.

Lemma cut_other (sep c : ascii) (rest : string) :
  Ascii.eqb c sep = false ->
  FFmpeg.cut sep rest = None ->
  FFmpeg.cut sep (String c rest) = None.
Proof. intros Hc H. cbn [FFmpeg.cut]. rewrite Hc, H. reflexivity. Qed.

Ltac spell_encoded :=
  match goal with
  | |- context [encoded ?c] =>
      let e := eval vm_compute in (encoded c) in
      change (encoded c) with e; cbn [String.append]
  end.

(** No byte is encoded with an [&] or a [#] in it. *)
Lemma split_encoded (c : ascii) (rest p : string) :
  FFmpeg.split_on "&" rest = [p] ->
  FFmpeg.split_on "&" (encoded c ++ rest) = [encoded c ++ p].
Proof.
  intros H. destruct c as [[] [] [] [] [] [] [] []]; spell_encoded;
    repeat (apply split_on_other; [reflexivity |]); exact H.
Qed.

Lemma cut_hash_encoded (c : ascii) (rest : string) :
  FFmpeg.cut "#" rest = None -> FFmpeg.cut "#" (encoded c ++ rest) = None.
Proof.
  intros H. destruct c as [[] [] [] [] [] [] [] []]; spell_encoded;
    repeat (apply cut_other; [reflexivity |]); exact H.
Qed.

Lemma decode_encodeURIComponent (s : string) :
  percent_decode (encodeURIComponent s) = s.
Proof.
  induction s as [| c s IH]; [reflexivity |].
  cbn [encodeURIComponent]. rewrite decode_encoded, IH. reflexivity.
Qed.

Lemma plus_to_space_encodeURIComponent (s : string) :
  plus_to_space (encodeURIComponent s) = encodeURIComponent s.
Proof.
  induction s as [| c s IH]; [reflexivity |].
  cbn [encodeURIComponent]. rewrite plus_to_space_encoded, IH. reflexivity.
Qed.

Lemma split_encodeURIComponent (s : string) :
  FFmpeg.split_on "&" (encodeURIComponent s) = [encodeURIComponent s].
Proof.
  induction s as [| c s IH]; [reflexivity |].
  cbn [encodeURIComponent]. apply split_encoded; exact IH.
Qed.

Lemma cut_hash_encodeURIComponent (s : string) :
  FFmpeg.cut "#" (encodeURIComponent s) = None.
Proof.
  induction s as [| c s IH]; [reflexivity |].
  cbn [encodeURIComponent]. apply cut_hash_encoded; exact IH.
Qed.

Lemma search_of_search_url (query : string) :
  search_of (Browse.search_url query) = "q=" ++ encodeURIComponent query.
Proof.
  assert (H : FFmpeg.cut "#" (Browse.search_url query) = None).
  { unfold Browse.search_url. cbn [String.append].
    repeat (apply cut_other; [reflexivity |]). apply cut_hash_encodeURIComponent. }
  unfold search_of. rewrite H. reflexivity.
Qed.

(** Whatever the user typed, the route finds one parameter, [q], holding
    just that. *)
Lemma parse_query_search_url (query : string) :
  parse_query (search_of (Browse.search_url query)) = [("q", query)].
Proof.
  rewrite search_of_search_url. unfold parse_query.
  assert (H : FFmpeg.split_on "&" ("q=" ++ encodeURIComponent query)
              = ["q=" ++ encodeURIComponent query]).
  { cbn [String.append]. repeat (apply split_on_other; [reflexivity |]).
    apply split_encodeURIComponent. }
  rewrite H.
  change ("q=" ++ encodeURIComponent query)
    with (String "q" (String "=" (encodeURIComponent query))).
  cbn. rewrite plus_to_space_encodeURIComponent, decode_encodeURIComponent. reflexivity.
Qed.

(** X6.  The search term survives the trip from [fetchVideos] to the
    route: for every text [query], the URL that the page requests is read
    by the route as the single parameter [q] with the value [query],
    whatever characters it contains ([&], [=], [#], [%], [+], spaces).  So
    the provider is asked for [query] itself, or for 'trending' when
    [query] is empty; the search on mount, [fetchVideos('trending')], and a
    search with an empty box ask the provider the same thing. *)
Theorem search_term_reaches_provider (apiKey query : string) :
  Search.searchParams (request_of (Browse.search_url query)) = [("q", query)]
  /\ Search.q (Search.search_call apiKey (request_of (Browse.search_url query)))
     = (if String.eqb query EmptyString then "trending" else query)
  /\ Search.search_call apiKey (request_of (Browse.search_url EmptyString))
     = Search.search_call apiKey (request_of (Browse.search_url "trending")).
Proof.
  unfold request_of. rewrite !parse_query_search_url. repeat split; reflexivity.
Qed.

End QueryFacts.

(** ** Renders of a page whose fields are known *)

Section RenderFacts.

Import Engine Page Hoare.

Context {St Data : Type}.

Abbreviation World := (World St Data).

(** A render keeps the state cells, the engine and the serial; what it
    revokes shows in the live URLs and in the log only. *)
Lemma render_fields (s r : State) (ref : option St) (objs : gmap nat (Blob Data))
    (n : nat) (lg : list (Event Data)) :
  render {| ui := s; rendered := r; ffmpegRef := ref; objectURLs := objs;
            nextURL := n; log := lg |}
  = ({| ui := s; rendered := s; ffmpegRef := ref;
        objectURLs := objectURLs (render {| ui := s; rendered := r; ffmpegRef := ref;
                                            objectURLs := objs; nextURL := n; log := lg |});
        nextURL := n;
        log := log (render {| ui := s; rendered := r; ffmpegRef := ref;
                              objectURLs := objs; nextURL := n; log := lg |}) |} : World).
Proof.
  unfold render. cbn [ui rendered]. destruct (deps_changed r s); [| reflexivity].
  unfold cleanup. destruct (originalVideoUrl r), (trimmedVideoUrl r); reflexivity.
Qed.

Lemma deps_same (s s' : State) :
  originalVideoUrl s = originalVideoUrl s' ->
  trimmedVideoUrl s = trimmedVideoUrl s' ->
  deps_changed s s' = false.
Proof.
  intros H1 H2. unfold deps_changed. rewrite bool_decide_eq_true_2; [reflexivity | auto].
Qed.

Lemma deps_differ (s s' : State) :
  originalVideoUrl s <> originalVideoUrl s' \/ trimmedVideoUrl s <> trimmedVideoUrl s' ->
  deps_changed s s' = true.
Proof.
  intros H. unfold deps_changed. rewrite bool_decide_eq_false_2; [reflexivity |].
  intros [H1 H2]. destruct H; contradiction.
Qed.

(** A render after which the effect is not run again ... *)
Lemma render_same (s r : State) ref (objs : gmap nat (Blob Data)) n lg :
  originalVideoUrl r = originalVideoUrl s ->
  trimmedVideoUrl r = trimmedVideoUrl s ->
  render {| ui := s; rendered := r; ffmpegRef := ref; objectURLs := objs;
            nextURL := n; log := lg |}
  = ({| ui := s; rendered := s; ffmpegRef := ref; objectURLs := objs;
        nextURL := n; log := lg |} : World).
Proof.
  intros H1 H2. unfold render. cbn [ui rendered]. rewrite deps_same by assumption.
  reflexivity.
Qed.

(** ... and one before which the cleanup of the previous render runs. *)
Lemma render_changed (s r : State) ref (objs : gmap nat (Blob Data)) n lg :
  originalVideoUrl r <> originalVideoUrl s \/ trimmedVideoUrl r <> trimmedVideoUrl s ->
  render {| ui := s; rendered := r; ffmpegRef := ref; objectURLs := objs;
            nextURL := n; log := lg |}
  = let w' := cleanup r ({| ui := s; rendered := r; ffmpegRef := ref; objectURLs := objs;
                            nextURL := n; log := lg |} : World) in
    {| ui := s; rendered := s; ffmpegRef := ffmpegRef w'; objectURLs := objectURLs w';
       nextURL := nextURL w'; log := log w' |}.
Proof.
  intros H. unfold render. cbn [ui rendered]. rewrite deps_differ by assumption.
  unfold cleanup. destruct (originalVideoUrl r), (trimmedVideoUrl r); reflexivity.
Qed.

End RenderFacts.

Ltac forget_render :=
  rewrite render_fields;
  repeat match goal with
         | |- context [Page.objectURLs (Page.render ?x)] =>
             generalize (Page.objectURLs (Page.render x)); intro
         | |- context [Page.log (Page.render ?x)] =>
             generalize (Page.log (Page.render x)); intro
         end.

(** ** Loading the engine *)

Section LoadFacts.

Import Engine Page Hoare.

Context {St Data : Type}.
Variable engine : API St Data.
Variable toBlobURL : string -> string -> Outcome string.

Abbreviation World := (World St Data).

(** X10.  [loadFFmpeg] never throws and always leaves an engine object in
    [ffmpegRef]: a new one, whatever was there before.  When both core
    files are fetched and [load] is fulfilled, the status is cleared and
    there is no error.  In every other case the error is
    'Failed to load FFmpeg' and the status stays 'Loading FFmpeg...': the
    [catch] block does not clear it.  The videos and the two video URLs
    are not touched. *)
Theorem loadFFmpeg_outcome (w : World) :
  let w' := snd (loadFFmpeg engine toBlobURL w) in
  let failed (st : St) :=
    ffmpegRef w' = Some st
    /\ status (ui w') = Some "Loading FFmpeg..."
    /\ error (ui w') = Some "Failed to load FFmpeg" in
  fst (loadFFmpeg engine toBlobURL w) = Fulfilled tt
  /\ originalVideoUrl (ui w') = originalVideoUrl (ui w)
  /\ trimmedVideoUrl (ui w') = trimmedVideoUrl (ui w)
  /\ videos (ui w') = videos (ui w)
  /\ match toBlobURL (baseURL ++ "/ffmpeg-core.js") "application/javascript",
           toBlobURL (baseURL ++ "/ffmpeg-core.wasm") "application/wasm" with
     | Fulfilled core, Fulfilled wasm =>
         match load engine {| coreURL := core; wasmURL := wasm |} (create engine) with
         | (Fulfilled _, st) =>
             ffmpegRef w' = Some st /\ status (ui w') = None /\ error (ui w') = None
         | (Rejected _, st) => failed st
         end
     | _, _ => failed (create engine)
     end.
Proof.
  cbv zeta. remember (loadFFmpeg engine toBlobURL w) as res eqn:Hres. revert Hres.
  destruct w as [s r ref objs n lg].
  unfold loadFFmpeg, load_engine, try_catch, bind, setStatus, setError, modify,
    await, lift, ffmpeg_load, on_engine, with_ui, with_ref, with_log.
  cbn -[render baseURL].
  destruct (toBlobURL (baseURL ++ "/ffmpeg-core.js") "application/javascript")
    as [core | e]; forget_render; cbn -[render baseURL].
  - destruct (toBlobURL (baseURL ++ "/ffmpeg-core.wasm") "application/wasm")
      as [wasm | e]; forget_render; cbn -[render baseURL].
    + destruct (load engine _ (create engine)) as [[loaded | e] st];
        forget_render; cbn -[render baseURL]; intros ->; cbn; auto 10.
    + intros ->. cbn. auto 10.
  - intros ->. cbn. auto 10.
Qed.

End LoadFacts.

(** ** Searching and picking a video *)

Section BrowseFacts.

Import Engine Page Hoare Browse.

Context {St Data : Type}.
Variable engine : API St Data.
Variable fetch : FetchRequest -> Outcome (FetchResponse Data).

Abbreviation World := (World St Data).

(** X7.  [fetchVideos] never throws and always ends with the status
    cleared.  The list of videos is replaced exactly when the response
    body parses to an array; a body that parses to anything else leaves
    the list and the error as they were.  When the request is rejected or
    the body does not parse, the list is kept and the error is
    'Failed to fetch videos'.  The two video URLs and the engine are not
    touched, and an error that was shown before is not cleared by a
    search that works. *)
Theorem fetchVideos_outcome (fetch_json : string -> Outcome (Outcome Parsed))
    (query : string) (w : World) :
  let w' := snd (fetchVideos fetch_json query w) in
  fst (fetchVideos fetch_json query w) = Fulfilled tt
  /\ status (ui w') = None
  /\ originalVideoUrl (ui w') = originalVideoUrl (ui w)
  /\ trimmedVideoUrl (ui w') = trimmedVideoUrl (ui w)
  /\ ffmpegRef w' = ffmpegRef w
  /\ match fetch_json (search_url query) with
     | Fulfilled (Fulfilled (IsArray items)) =>
         videos (ui w') = items /\ error (ui w') = error (ui w)
     | Fulfilled (Fulfilled (NotArray _)) =>
         videos (ui w') = videos (ui w) /\ error (ui w') = error (ui w)
     | _ =>
         videos (ui w') = videos (ui w) /\ error (ui w') = Some "Failed to fetch videos"
     end.
Proof.
  cbv zeta. remember (fetchVideos fetch_json query w) as res eqn:Hres. revert Hres.
  destruct w as [s r ref objs n lg].
  unfold fetchVideos, search, try_catch, bind, setStatus, setError, setVideos,
    modify, await, lift, ret, with_ui.
  cbn -[render].
  destruct (fetch_json (search_url query)) as [[[items | j] | e] | e];
    repeat (forget_render; cbn -[render]); intros ->; cbn; auto 10.
Qed.

(** X8.  The page and the search route together: a search that fails on
    the server is silent.  Whatever the route answers to
    [fetchVideos(query)], the page ends with the status cleared and the
    error as it was; when the answer is a failure (no key, or the provider
    threw) the list of videos is kept, and when it is a success the list
    becomes the videos of the answer.  A provider call, when one is made,
    asks for [query], or for 'trending' when [query] is empty. *)
Theorem failed_search_is_silent
    (search_list : Search.SearchCall -> Search.ApiError + option (list Search.YouTubeVideoItem))
    (random : nat -> Z) (env : Search.Env) (query : string) (w : World) :
  let w' := snd (fetchVideos (route_fetch search_list random env) query w) in
  let '(response, calls) :=
    Search.GET search_list random env {| Search.searchParams := [("q", query)] |} in
  status (ui w') = None
  /\ error (ui w') = error (ui w)
  /\ (forall call, In call calls ->
        Search.q call = if String.eqb query EmptyString then "trending" else query)
  /\ match Search.body response with
     | Search.Videos items => videos (ui w') = items
     | Search.Failure _ _ => videos (ui w') = videos (ui w)
     end.
Proof.
  cbv zeta.
  remember (fetchVideos (route_fetch search_list random env) query w) as res eqn:Hres.
  revert Hres. destruct w as [s r ref objs n lg].
  unfold fetchVideos, search, try_catch, bind, setStatus, setError, setVideos,
    modify, await, lift, ret, with_ui, route_fetch, URI.request_of.
  rewrite parse_query_search_url.
  destruct (Search.GET search_list random env {| Search.searchParams := [("q", query)] |})
    as [response calls] eqn:HGET.
  assert (Hcalls : forall call, In call calls ->
            Search.q call = if String.eqb query EmptyString then "trending" else query).
  { unfold Search.GET in HGET.
    destruct (Search.YOUTUBE_API_KEY env) as [apiKey |].
    - destruct (String.eqb apiKey EmptyString).
      + injection HGET as _ <-. intros call [].
      + cbv zeta in HGET. destruct (search_list _); injection HGET as _ <-;
          intros call [<- | []]; reflexivity.
    - injection HGET as _ <-. intros call []. }
  cbn -[render].
  destruct (Search.body response) as [items | msg [e |]];
    repeat (forget_render; cbn -[render]); intros ->; cbn; auto.
Qed.

Lemma random_index_in_range (r : Z) (n : nat) :
  0 <= r < 2 ^ 53 -> (0 < n)%nat -> (random_index r n < n)%nat.
Proof.
  intros Hr Hn. unfold random_index.
  assert (0 <= r * Z.of_nat n / 2 ^ 53 < Z.of_nat n).
  { split.
    - apply Z.div_pos; [nia | lia].
    - apply Z.div_lt_upper_bound; [lia | nia]. }
  lia.
Qed.


End BrowseFacts.

(** ** How a job ends *)

Section JobOutcomes.

Import Engine Page Hoare Lifecycle.

Context {St Data : Type}.
Variable engine : API St Data.
Variable fetch : FetchRequest -> Outcome (FetchResponse Data).

Abbreviation World := (World St Data).

Ltac step := cbn -[render deps_changed trimArgs encodeArgs insert delete lookup].

Ltac run_job :=
  unfold try_catch, job, download, show_original, transcode_stages, show_result,
    report_failure, throw_download_error, throw,
    bind, setStatus, setError, setOriginalVideoUrl, setTrimmedVideoUrl, modify, await,
    do_fetch, lift, ret, createObjectURL, ffmpeg_writeFile, ffmpeg_exec, ffmpeg_readFile,
    on_engine, with_ui, with_log, with_ref;
  step.

Ltac render_old := rewrite render_same by reflexivity.

Ltac render_new :=
  rewrite render_changed
    by first [left; cbn; first [assumption | discriminate]
             | right; cbn; first [assumption | discriminate]].

Ltac url_facts :=
  repeat match goal with
         | H : forall u : URL, Some ?x = Some u -> (u < ?n)%nat |- _ =>
             pose proof (H x eq_refl); clear H
         | H : forall u : URL, None = Some u -> _ |- _ => clear H
         end.

Ltac revoked :=
  repeat first [ apply lookup_delete_None; first [left; reflexivity | right]
               | rewrite lookup_insert_ne by lia ].

Ltac live :=
  repeat first [ rewrite lookup_delete_ne by lia | rewrite lookup_insert_ne by lia ];
  rewrite lookup_insert_eq; reflexivity.

Ltac finish_urls :=
  intros ->; cbn -[insert delete lookup];
  repeat split; intros; try discriminate; try reflexivity;
  try match goal with H : Some _ = Some _ |- _ => injection H as <- end;
  url_facts; first [live | revoked; fail].

(** X11.  When the download fails (the request is rejected, the response
    is not [ok], or its body cannot be read), the job stops there: the
    error shown is 'Failed to process video' whatever the route sent, the
    status is cleared, the two video URLs and the live object URLs are as
    they were, the engine is not called, and the only event is the one
    request to the acquisition route. *)
Theorem processVideo_download_failure
    (video : Search.YouTubeVideoItem) (videoId : string) (w : World) (st : St) :
  ffmpegRef w = Some st ->
  videoId_of video = Some videoId ->
  videoId <> EmptyString ->
  settled w ->
  download_fails fetch videoId ->
  let w' := run (processVideo engine fetch video) w in
  error (ui w') = Some "Failed to process video"
  /\ status (ui w') = None
  /\ originalVideoUrl (ui w') = originalVideoUrl (ui w)
  /\ trimmedVideoUrl (ui w') = trimmedVideoUrl (ui w)
  /\ objectURLs w' = objectURLs w
  /\ ffmpegRef w' = Some st
  /\ exists answered,
       log w' = (log w ++ [EvFetch (process_video_request videoId) answered])%list.
Proof.
  intros Href Hid Hne [Hso Hst] Hfail. cbv zeta.
  remember (run (processVideo engine fetch video) w) as res eqn:Hres. revert Hres.
  unfold run, processVideo. rewrite Href, Hid.
  destruct (String.eqb_spec videoId EmptyString) as [| _]; [contradiction |].
  destruct w as [s r ref objs n lg]. cbn in Href, Hso, Hst. subst ref.
  destruct s as [sta err vids o t sq], r as [rsta rerr rvids ro rt rsq].
  cbn in Hso, Hst. subst ro rt.
  unfold download_fails in Hfail. run_job.
  destruct (fetch (process_video_request videoId)) as [resp | e]; step.
  - render_old. destruct Hfail as [Hok | [e Hbody]].
    + rewrite Hok. step. render_old.
      destruct (json resp) as [j | e]; step.
      * destruct (JS.get_prop j "error") as [e | v]; step; render_old; step;
          intros ->; cbn; repeat split; eauto.
      * render_old. step. intros ->. cbn. repeat split; eauto.
    + destruct (ok resp); step.
      * rewrite Hbody. render_old. step. render_old. step.
        intros ->. cbn. repeat split; eauto.
      * render_old. destruct (json resp) as [j | e']; step.
        -- destruct (JS.get_prop j "error") as [e' | v]; step; render_old; step;
             intros ->; cbn; repeat split; eauto.
        -- render_old. step. intros ->. cbn. repeat split; eauto.
  - render_old. step. render_old. step. intros ->. cbn. repeat split; eauto.
Qed.

(** X12.  A job in which the download and the four engine calls are
    fulfilled ends with the status 'Ready!' and no error.  The trimmed
    video URL is a new one, live, and refers to the bytes read back from
    'output.mp4'.  The original video URL is the one created for the
    download, but it is no longer live: the cleanup of the URL effect,
    which ran when the trimmed URL changed, has revoked it although the
    state still holds it.  The URLs held before the job are revoked
    too. *)
Theorem processVideo_success
    (video : Search.YouTubeVideoItem) (videoId : string) (w : World)
    (st st1 st2 st3 st4 : St) (resp : FetchResponse Data) (d out : Data)
    (b : bool) (c1 c2 : Z) :
  ffmpegRef w = Some st ->
  videoId_of video = Some videoId ->
  videoId <> EmptyString ->
  urls_issued w ->
  settled w ->
  fetch (process_video_request videoId) = Fulfilled resp ->
  ok resp = true ->
  arrayBuffer resp = Fulfilled d ->
  writeFile engine "input.mp4" d st = (Fulfilled b, st1) ->
  exec engine trimArgs st1 = (Fulfilled c1, st2) ->
  exec engine encodeArgs st2 = (Fulfilled c2, st3) ->
  readFile engine "output.mp4" st3 = (Fulfilled out, st4) ->
  let w' := run (processVideo engine fetch video) w in
  status (ui w') = Some "Ready!"
  /\ error (ui w') = None
  /\ originalVideoUrl (ui w') = Some (nextURL w)
  /\ trimmedVideoUrl (ui w') = Some (S (nextURL w))
  /\ objectURLs w' !! S (nextURL w) = Some {| blob_part := out; blob_type := "video/mp4" |}
  /\ objectURLs w' !! nextURL w = None
  /\ (forall u, originalVideoUrl (ui w) = Some u -> objectURLs w' !! u = None)
  /\ (forall u, trimmedVideoUrl (ui w) = Some u -> objectURLs w' !! u = None)
  /\ ffmpegRef w' = Some st4.
Proof.
  intros Href Hid Hne [[Huo Hut] [Hro Hrt]] [Hso Hst] Hfetch Hok Hbody Hw Ht He Hr.
  cbv zeta.
  remember (run (processVideo engine fetch video) w) as res eqn:Hres. revert Hres.
  unfold run, processVideo. rewrite Href, Hid.
  destruct (String.eqb_spec videoId EmptyString) as [| _]; [contradiction |].
  destruct w as [s r ref objs n lg]. cbn in Href, Huo, Hut, Hro, Hrt, Hso, Hst. subst ref.
  destruct s as [sta err vids o t sq], r as [rsta rerr rvids ro rt rsq].
  cbn in Huo, Hut, Hro, Hrt, Hso, Hst. subst ro rt.
  run_job. rewrite Hfetch, Hok. step. rewrite Hbody.
  render_old. step. render_old.
  assert (Ho : o <> Some n) by (intros ->; specialize (Huo n eq_refl); lia).
  assert (Ht1 : t <> Some n) by (intros ->; specialize (Hut n eq_refl); lia).
  assert (Ht2 : t <> Some (S n)) by (intros ->; specialize (Hut (S n) eq_refl); lia).
  destruct o as [o |], t as [t |]; step; rewrite Hw; render_new; step;
    rewrite Ht; render_old; step; rewrite He; render_old; step;
    rewrite Hr; render_old; step; render_new; step.
  all: finish_urls.
Qed.

(** X13.  A job that fails after its download leaves the result of an
    earlier job unusable: the trimmed video URL in the state is the one
    from before the job, so the page still shows it, but it has been
    revoked, by the cleanup of the URL effect that ran when the original
    URL changed.  This holds whichever of the four engine calls rejects. *)
Theorem failed_job_revokes_earlier_result
    (video : Search.YouTubeVideoItem) (videoId : string) (w : World) (st : St)
    (resp : FetchResponse Data) (d : Data) :
  ffmpegRef w = Some st ->
  videoId_of video = Some videoId ->
  videoId <> EmptyString ->
  urls_issued w ->
  settled w ->
  fetch (process_video_request videoId) = Fulfilled resp ->
  ok resp = true ->
  arrayBuffer resp = Fulfilled d ->
  stage_rejects engine d st ->
  let w' := run (processVideo engine fetch video) w in
  trimmedVideoUrl (ui w') = trimmedVideoUrl (ui w)
  /\ (forall t, trimmedVideoUrl (ui w) = Some t -> objectURLs w' !! t = None)
  /\ status (ui w') = None
  /\ error (ui w') = Some "Failed to process video".
Proof.
  intros Href Hid Hne [[Huo Hut] [Hro Hrt]] [Hso Hst] Hfetch Hok Hbody Hrej.
  cbv zeta.
  remember (run (processVideo engine fetch video) w) as res eqn:Hres. revert Hres.
  unfold run, processVideo. rewrite Href, Hid.
  destruct (String.eqb_spec videoId EmptyString) as [| _]; [contradiction |].
  destruct w as [s r ref objs n lg]. cbn in Href, Huo, Hut, Hro, Hrt, Hso, Hst. subst ref.
  destruct s as [sta err vids o t sq], r as [rsta rerr rvids ro rt rsq].
  cbn in Huo, Hut, Hro, Hrt, Hso, Hst. subst ro rt.
  run_job. rewrite Hfetch, Hok. step. rewrite Hbody.
  render_old. step. render_old.
  assert (Ho : o <> Some n) by (intros ->; specialize (Huo n eq_refl); lia).
  assert (Ht1 : t <> Some n) by (intros ->; specialize (Hut n eq_refl); lia).
  destruct Hrej as [(e & st1 & Hw)
                   | [(b & st1 & e & st2 & Hw & Ht)
                     | [(b & st1 & c1 & st2 & e & st3 & Hw & Ht & He)
                       | (b & st1 & c1 & st2 & c2 & st3 & e & st4 & Hw & Ht & He & Hr)]]].
  - destruct o as [o |], t as [t |]; step; rewrite Hw; render_new; step;
      render_old; step.
    all: finish_urls.
  - destruct o as [o |], t as [t |]; step; rewrite Hw; render_new; step;
      rewrite Ht; render_old; step; render_old; step.
    all: finish_urls.
  - destruct o as [o |], t as [t |]; step; rewrite Hw; render_new; step;
      rewrite Ht; render_old; step; rewrite He; render_old; step; render_old; step.
    all: finish_urls.
  - destruct o as [o |], t as [t |]; step; rewrite Hw; render_new; step;
      rewrite Ht; render_old; step; rewrite He; render_old; step;
      rewrite Hr; render_old; step; render_old; step.
    all: finish_urls.
Qed.

(** *** No URL is created and forgotten *)

Ltac renders := repeat first [render_old; step | render_new; step].

Ltac stray Hu :=
  repeat first
    [ apply lookup_delete_is_Some in Hu; destruct Hu as [? Hu]
    | apply lookup_insert_is_Some in Hu; destruct Hu as [<- | [? Hu]]; [auto |] ].

Ltac no_stray :=
  intros ->; unfold no_stray_urls; cbn -[insert delete lookup];
  let u := fresh "u" in let Hu := fresh "Hu" in
  intros u Hu; stray Hu;
  match goal with
  | H : no_stray_urls _ |- _ =>
      destruct (H u Hu) as [Heq | Heq]; cbn in Heq;
      try discriminate; try (injection Heq as ->); first [contradiction | auto]
  end.

Lemma no_stray_urls_processVideo (video : Search.YouTubeVideoItem) (w : World) :
  urls_issued w -> settled w -> no_stray_urls w ->
  no_stray_urls (run (processVideo engine fetch video) w).
Proof.
  intros [[Huo Hut] [Hro Hrt]] [Hso Hst] Hheld.
  remember (run (processVideo engine fetch video) w) as res eqn:Hres. revert Hres.
  unfold run, processVideo.
  destruct w as [s r ref objs n lg]. cbn in Huo, Hut, Hro, Hrt, Hso, Hst.
  destruct s as [sta err vids o t sq], r as [rsta rerr rvids ro rt rsq].
  cbn in Huo, Hut, Hro, Hrt, Hso, Hst. subst ro rt. step.
  destruct ref as [st |]; [| step; render_old; no_stray].
  destruct (videoId_of video) as [videoId |]; [| step; render_old; no_stray].
  destruct (String.eqb videoId EmptyString); [step; render_old; no_stray |].
  run_job.
  destruct (fetch (process_video_request videoId)) as [resp | e]; step;
    [| renders; no_stray].
  render_old.
  destruct (ok resp); step.
  - destruct (arrayBuffer resp) as [d | e]; step; [| renders; no_stray].
    renders.
    assert (Ho : o <> Some n) by (intros ->; specialize (Huo n eq_refl); lia).
    assert (Ht1 : t <> Some n) by (intros ->; specialize (Hut n eq_refl); lia).
    assert (Ht2 : t <> Some (S n)) by (intros ->; specialize (Hut (S n) eq_refl); lia).
    destruct o as [o |], t as [t |]; step.
    all: destruct (writeFile engine "input.mp4" d st) as [[b | e] st1]; render_new; step;
      [| renders; no_stray].
    all: destruct (exec engine trimArgs st1) as [[c1 | e] st2]; render_old; step;
      [| renders; no_stray].
    all: destruct (exec engine encodeArgs st2) as [[c2 | e] st3]; render_old; step;
      [| renders; no_stray].
    all: destruct (readFile engine "output.mp4" st3) as [[out | e] st4]; render_old; step;
      renders; no_stray.
  - render_old. destruct (json resp) as [j | e]; step.
    + destruct (JS.get_prop j "error") as [e | v]; step; renders; no_stray.
    + renders; no_stray.
Qed.

End JobOutcomes.

(** ** What every action of the page keeps *)

Section Invariants.

Import Engine Page Hoare Browse Lifecycle.

Context {St Data : Type}.
Variable engine : API St Data.
Variable fetch : FetchRequest -> Outcome (FetchResponse Data).
Variable toBlobURL : string -> string -> Outcome string.
Variable fetch_json : string -> Outcome (Outcome Parsed).

Abbreviation World := (World St Data).

(** After an action and its render, the render shows what the cells
    hold. *)
Lemma settled_run (c : M unit) (w : World) : settled (run c w).
Proof. unfold settled, run. rewrite rendered_render, ui_render. auto. Qed.

Lemma urls_issued_fetchVideos (query : string) (w : World) :
  urls_issued w -> urls_issued (run (fetchVideos fetch_json query) w).
Proof.
  intros Hw. pose proof (@urls_issued_stable St Data) as (_ & _ & Hrender).
  unfold run. apply Hrender. revert Hw.
  destruct w as [s r ref objs n lg].
  unfold fetchVideos, search, try_catch, bind, setStatus, setError, setVideos,
    modify, await, lift, ret, with_ui.
  cbn -[render].
  destruct (fetch_json (search_url query)) as [[[items | j] | e] | e];
    repeat (forget_render; cbn -[render]);
    unfold urls_issued, issued_below; cbn; intros [[? ?] [? ?]]; repeat split; assumption.
Qed.

Lemma urls_issued_processRandomVideo (r : Z) (w : World) :
  urls_issued w -> urls_issued (run (processRandomVideo engine fetch r) w).
Proof.
  intros Hw. pose proof (@urls_issued_stable St Data) as (_ & _ & Hrender).
  unfold run, processRandomVideo. cbv beta zeta.
  destruct (0 <? length (videos (rendered w)))%nat; [| apply Hrender; exact Hw].
  destruct (videos (rendered w) !! _) as [video |].
  - apply (urls_issued_processVideo engine fetch video w Hw).
  - apply Hrender. destruct (ffmpegRef w); exact Hw.
Qed.

(** An action that changes neither the two URL cells nor the live URLs
    keeps [no_stray_urls]; [fetchVideos] and [loadFFmpeg] are such
    actions. *)
Lemma no_stray_urls_quiet (c : M unit) (w : World) :
  (forall s r ref (objs : gmap nat (Blob Data)) n lg,
     originalVideoUrl r = originalVideoUrl s -> trimmedVideoUrl r = trimmedVideoUrl s ->
     exists s' r' ref' lg',
       snd (c {| ui := s; rendered := r; ffmpegRef := ref; objectURLs := objs;
                 nextURL := n; log := lg |})
       = {| ui := s'; rendered := r'; ffmpegRef := ref'; objectURLs := objs;
            nextURL := n; log := lg' |}
       /\ originalVideoUrl s' = originalVideoUrl s /\ trimmedVideoUrl s' = trimmedVideoUrl s
       /\ originalVideoUrl r' = originalVideoUrl s
       /\ trimmedVideoUrl r' = trimmedVideoUrl s) ->
  settled w -> no_stray_urls w -> no_stray_urls (run c w).
Proof.
  intros Hc [Hso Hst] Hheld. destruct w as [s r ref objs n lg]. cbn in Hso, Hst.
  destruct (Hc s r ref objs n lg Hso Hst) as (s' & r' & ref' & lg' & Heq & H1 & H2 & H3 & H4).
  unfold run. rewrite Heq. rewrite render_same by congruence.
  intros u Hu. cbn in Hu |- *. destruct (Hheld u Hu) as [H | H]; cbn in H; [left | right];
    congruence.
Qed.

Lemma no_stray_urls_fetchVideos (query : string) (w : World) :
  settled w -> no_stray_urls w -> no_stray_urls (run (fetchVideos fetch_json query) w).
Proof.
  apply no_stray_urls_quiet. intros s r ref objs n lg Ho Ht.
  unfold fetchVideos, search, try_catch, bind, setStatus, setError, setVideos,
    modify, await, lift, ret, with_ui.
  cbn -[render].
  destruct (fetch_json (search_url query)) as [[[items | j] | e] | e];
    repeat (rewrite render_same by (cbn; assumption || reflexivity); cbn -[render]);
    eexists _, _, _, _; (split; [reflexivity |]); cbn; auto.
Qed.

Lemma no_stray_urls_loadFFmpeg (w : World) :
  settled w -> no_stray_urls w -> no_stray_urls (run (loadFFmpeg engine toBlobURL) w).
Proof.
  apply no_stray_urls_quiet. intros s r ref objs n lg Ho Ht.
  unfold loadFFmpeg, load_engine, try_catch, bind, setStatus, setError, modify,
    await, lift, ffmpeg_load, on_engine, with_ui, with_ref, with_log.
  cbn -[render baseURL].
  destruct (toBlobURL (baseURL ++ "/ffmpeg-core.js") "application/javascript")
    as [core | e];
    repeat (rewrite render_same by (cbn; assumption || reflexivity); cbn -[render baseURL]);
    [destruct (toBlobURL (baseURL ++ "/ffmpeg-core.wasm") "application/wasm")
       as [wasm | e];
     repeat (rewrite render_same by (cbn; assumption || reflexivity);
             cbn -[render baseURL]);
     [destruct (load engine _ (create engine)) as [[loaded | e] st];
      repeat (rewrite render_same by (cbn; assumption || reflexivity);
              cbn -[render baseURL]) |] |];
    eexists _, _, _, _; (split; [reflexivity |]); cbn; auto.
Qed.

Lemma no_stray_urls_processRandomVideo (r : Z) (w : World) :
  urls_issued w -> settled w -> no_stray_urls w ->
  no_stray_urls (run (processRandomVideo engine fetch r) w).
Proof.
  intros Hi Hs Hw. unfold run, processRandomVideo. cbv beta zeta.
  assert (Hnoop : no_stray_urls (render w)).
  { destruct w as [s0 r0 ref objs n lg]. destruct Hs as [Hso Hst]. cbn in Hso, Hst.
    rewrite render_same by assumption. exact Hw. }
  destruct (0 <? length (videos (rendered w)))%nat; [| exact Hnoop].
  destruct (videos (rendered w) !! _) as [v |].
  - apply (no_stray_urls_processVideo engine fetch v w Hi Hs Hw).
  - destruct (ffmpegRef w); exact Hnoop.
Qed.

End Invariants.

(** ** Sessions *)

Section Sessions.

Import Engine Page Hoare Browse Lifecycle.

Context {St Data : Type}.
Variable engine : API St Data.

Abbreviation World := (World St Data).

Lemma size_union_le (X Y : gset nat) : (size (X ∪ Y) <= size X + size Y)%nat.
Proof.
  rewrite size_union_alt.
  assert (Hsub : Y ∖ X ⊆ Y).
  { intros x Hx. apply elem_of_difference in Hx as [Hx _]. exact Hx. }
  apply subseteq_size in Hsub. lia.
Qed.

Lemma size_shown (url : option URL) : (size (shown url) <= 1)%nat.
Proof. destruct url; cbn; [rewrite size_singleton | rewrite size_empty]; lia. Qed.

Lemma at_most_two_live (w : World) : no_stray_urls w -> (size (objectURLs w) <= 2)%nat.
Proof.
  intros Hw. rewrite <- size_dom.
  assert (Hsub : dom (objectURLs w)
                 ⊆ shown (originalVideoUrl (ui w)) ∪ shown (trimmedVideoUrl (ui w))).
  { intros u Hu. apply elem_of_dom in Hu.
    destruct (Hw u Hu) as [-> | ->]; cbn; set_solver. }
  apply subseteq_size in Hsub.
  pose proof (size_union_le (shown (originalVideoUrl (ui w)))
                            (shown (trimmedVideoUrl (ui w)))).
  pose proof (size_shown (originalVideoUrl (ui w))).
  pose proof (size_shown (trimmedVideoUrl (ui w))).
  lia.
Qed.

Lemma session_invariant (actions : list (Action Data)) (w : World) :
  urls_issued w -> settled w -> no_stray_urls w ->
  urls_issued (session engine actions w)
  /\ settled (session engine actions w)
  /\ no_stray_urls (session engine actions w).
Proof.
  revert w. induction actions as [| a actions IH]; intros w Hi Hs Hn.
  - cbn. auto.
  - cbn [session fold_left]. apply IH.
    + destruct a; cbn [perform].
      * apply urls_issued_loadFFmpeg; assumption.
      * apply urls_issued_fetchVideos; assumption.
      * apply urls_issued_processVideo; assumption.
      * apply urls_issued_processRandomVideo; assumption.
    + destruct a; apply settled_run.
    + destruct a; cbn [perform].
      * apply no_stray_urls_loadFFmpeg; assumption.
      * apply no_stray_urls_fetchVideos; assumption.
      * apply no_stray_urls_processVideo; assumption.
      * apply no_stray_urls_processRandomVideo; assumption.
Qed.


End Sessions.

(** ** Sample runs of the further properties *)

(** Witness of [GET_response_shape]: a search with a key and a provider
    that answers. *)
Lemma GET_response_shape_witness :
  (length (snd (Search.GET (Samples.provider_stub Samples.fifty) Samples.coin
                  Samples.env_with_key (Samples.request_with [("q", "cats")]))) <= 1)%nat.
Proof.
  pose proof (GET_response_shape (Samples.provider_stub Samples.fifty) Samples.coin
                Samples.env_with_key (Samples.request_with [("q", "cats")])) as H.
  destruct (Search.GET (Samples.provider_stub Samples.fifty) Samples.coin
              Samples.env_with_key (Samples.request_with [("q", "cats")]))
    as [response calls].
  destruct H as [[(_ & _ & H) | (_ & _ & H)] _]; cbn [snd]; lia.
Defined.

(** Witness of [GET_small_result_is_rearranged]: three items. *)
Lemma GET_small_result_is_rearranged_witness :
  exists videos,
    fst (Search.GET (Samples.provider_stub Scenes.three) Samples.coin Samples.env_with_key
           (Samples.request_with []))
    = {| Search.status := 200; Search.body := Search.Videos videos |}
    /\ Permutation videos Scenes.three.
Proof.
  destruct (GET_small_result_is_rearranged (Samples.provider_stub Scenes.three) Samples.coin
              Samples.env_with_key (Samples.request_with []) "key" (Some Scenes.three))
    as (videos & H1 & H2 & _).
  - reflexivity.
  - discriminate.
  - reflexivity.
  - simpl. lia.
  - exists videos. split; assumption.
Defined.

(** Witness of [POST_response_shape]: a body with an identifier and a
    resolver that returns a stream. *)
Lemma POST_response_shape_witness :
  (length (snd (Acquire.POST (fun _ => Some tt)
                  (Some (JS.JObj [("videoId", JS.JStr "abc")])))) <= 1)%nat.
Proof.
  pose proof (POST_response_shape (fun _ : Acquire.YtdlCall => Some tt)
                (Some (JS.JObj [("videoId", JS.JStr "abc")]))) as H.
  destruct (Acquire.POST (fun _ => Some tt) (Some (JS.JObj [("videoId", JS.JStr "abc")])))
    as [response calls].
  destruct H as [[(_ & call & stream & -> & _) | [[_ ->] | [_ [-> | (call & -> & _)]]]] _];
    cbn; lia.
Defined.

(** Witness of [POST_body_that_is_no_object]: the body [5]. *)
Lemma POST_body_that_is_no_object_witness :
  Acquire.POST (fun _ => Some tt) (Some (JS.JNum 5))
  = (Acquire.json_error "Video ID is required" 400, []).
Proof.
  destruct (POST_body_that_is_no_object (fun _ : Acquire.YtdlCall => Some tt) (JS.JNum 5))
    as [_ H].
  - intros fields. discriminate.
  - apply H. discriminate.
Defined.

(** Witness of [page_request_reaches_resolver]. *)
Lemma page_request_reaches_resolver_witness :
  snd (Acquire.POST (fun _ => Some tt)
         (Some (Page.fetch_body (Page.process_video_request "abc"))))
  = [ {| Acquire.ytdl_url := "https://www.youtube.com/watch?v=abc";
         Acquire.ytdl_quality := "18"; Acquire.ytdl_filter := "audioandvideo" |} ].
Proof.
  destruct (page_request_reaches_resolver (fun _ : Acquire.YtdlCall => Some tt) "abc")
    as [H _].
  - discriminate.
  - exact H.
Defined.

(** Witness of [failed_search_is_silent]: a search on a server without a
    key. *)
Lemma failed_search_is_silent_witness :
  let w' := snd (Browse.fetchVideos
                   (Browse.route_fetch (Samples.provider_stub Samples.fifty) Samples.coin
                      {| Search.YOUTUBE_API_KEY := None |})
                   "cats" Samples.ready) in
  Page.status (Page.ui w') = None
  /\ Page.error (Page.ui w') = Page.error (Page.ui Samples.ready)
  /\ Page.videos (Page.ui w') = Page.videos (Page.ui Samples.ready).
Proof.
  pose proof (failed_search_is_silent (Samples.provider_stub Samples.fifty) Samples.coin
                {| Search.YOUTUBE_API_KEY := None |} "cats" Samples.ready) as H.
  cbv zeta in H. cbn [Search.GET Search.YOUTUBE_API_KEY Search.body] in H.
  destruct H as (Hs & He & _ & Hv). cbv zeta. auto.
Defined.


(** Witness of [processVideo_download_failure]: an identifier that the
    sample route answers with an error. *)
Lemma processVideo_download_failure_witness :
  let w' := Page.run (Page.processVideo Samples.engine_up Samples.acquire_stub
                        (Samples.item "other")) Samples.ready in
  Page.error (Page.ui w') = Some "Failed to process video"
  /\ Page.status (Page.ui w') = None
  /\ Page.objectURLs w' = Page.objectURLs Samples.ready.
Proof.
  destruct (processVideo_download_failure Samples.engine_up Samples.acquire_stub
              (Samples.item "other") "other" Samples.ready
              {| FFmpeg.loaded := true; FFmpeg.files := ∅ |})
    as (He & Hs & _ & _ & Hu & _).
  - vm_compute. reflexivity.
  - reflexivity.
  - discriminate.
  - split; reflexivity.
  - vm_compute. left. reflexivity.
  - cbv zeta. auto.
Defined.

(** Witness of [processVideo_success]: the first job of the sample
    session.  Its original video has the URL 0, which is revoked when the
    job is done. *)
Lemma processVideo_success_witness :
  let w' := Page.run (Page.processVideo Samples.engine_up Samples.acquire_stub
                        (Samples.item "landscape")) Samples.ready in
  Page.status (Page.ui w') = Some "Ready!"
  /\ Page.originalVideoUrl (Page.ui w') = Some (Page.nextURL Samples.ready)
  /\ Page.objectURLs w' !! Page.nextURL Samples.ready = None
  /\ Page.trimmedVideoUrl (Page.ui w') = Some (S (Page.nextURL Samples.ready)).
Proof.
  edestruct (processVideo_success Samples.engine_up Samples.acquire_stub
               (Samples.item "landscape") "landscape" Samples.ready)
    as (Hs & _ & Ho & Ht & _ & Hr & _).
  - vm_compute. reflexivity.
  - reflexivity.
  - discriminate.
  - split; split; intros u H; vm_compute in H; discriminate.
  - split; reflexivity.
  - vm_compute. reflexivity.
  - reflexivity.
  - reflexivity.
  - vm_compute. reflexivity.
  - vm_compute. reflexivity.
  - vm_compute. reflexivity.
  - vm_compute. reflexivity.
  - cbv zeta. auto.
Defined.

(** Witness of [failed_job_revokes_earlier_result]: after a first job and
    a second [loadFFmpeg], a job on unreadable bytes fails at the
    read-back; the trimmed video of the first job, URL 1, is still in the
    state and is revoked. *)
Lemma failed_job_revokes_earlier_result_witness :
  let w' := Page.run (Page.processVideo Samples.engine_up Samples.acquire_stub
                        (Samples.item "junk")) Scenes.reloaded in
  Page.trimmedVideoUrl (Page.ui w') = Some 1%nat
  /\ Page.objectURLs w' !! 1%nat = None
  /\ Page.error (Page.ui w') = Some "Failed to process video".
Proof.
  edestruct (failed_job_revokes_earlier_result Samples.engine_up Samples.acquire_stub
               (Samples.item "junk") "junk" Scenes.reloaded)
    as (Ht & Hr & _ & He).
  - vm_compute. reflexivity.
  - reflexivity.
  - discriminate.
  - split; split; intros u H; vm_compute in H; injection H as <-; vm_compute; lia.
  - vm_compute. split; reflexivity.
  - vm_compute. reflexivity.
  - reflexivity.
  - reflexivity.
  - right. right. right.
    eexists _, _, _, _, _, _, _, _.
    split; [vm_compute; reflexivity |].
    split; [vm_compute; reflexivity |].
    split; [vm_compute; reflexivity |].
    vm_compute. reflexivity.
  - cbv zeta. split; [rewrite Ht; reflexivity |]. split; [| exact He].
    apply Hr. reflexivity.
Defined.

(** A sample session: after loading, a search, a job and a click on the
    random button, which picks the unreadable video, only the page's two
    URLs are left. *)
Lemma session_sample_urls :
  let w := Lifecycle.session Samples.engine_up Scenes.afternoon Lifecycle.mounted in
  Page.originalVideoUrl (Page.ui w) = Some 2%nat
  /\ Page.trimmedVideoUrl (Page.ui w) = Some 3%nat
  /\ Page.status (Page.ui w) = Some "Ready!"
  /\ map fst (map_to_list (Page.objectURLs w)) = [3%nat].
Proof. vm_compute. repeat split. Qed.
